(** * redis-decorators: memoizing decorators over a Redis client

    A shallow embedding of the Python package [redis_decorators] (and of the
    older [redis_utils] wrapper it replaced) together with the properties of
    its specification.

    Layout:
    - [Py]      : the few Python built-ins the code relies on (truthiness,
                  [str], [":".join], f-string formatting);
    - [build_redis_url];
    - [Engine]  : the commands of the key-value engine the package calls;
    - the world (process state) and its error/state monad;
    - [Cacheable] adapters and [CacheElement]s;
    - [RedisCaching] (connection holder) and [CacheValueWrapper];
    - the legacy [CacheValue] wrapper of [redis_utils];
    - theorems. *)

From Stdlib Require Import ZArith String Ascii List Lia DecimalString.
From stdpp Require Import base option gmap strings list fin_maps.

Local Open Scope string_scope.
Local Open Scope Z_scope.

(* ===================================================================== *)
(** ** Python built-ins                                                   *)
(* ===================================================================== *)

Module Py.

(** The scalar objects that reach [build_redis_url] and the key functions. *)
Inductive scalar :=
| PNone
| PBool (b : bool)
| PInt (z : Z)
| PStr (s : string).

(** Truth value testing, as done by [if x:] and [x or y]. *)
Class Truthy (A : Type) := truthy : A → bool.

Definition str_nonempty (s : string) : bool :=
  match s with EmptyString => false | String _ _ => true end.

#[export] Instance scalar_truthy : Truthy scalar := fun v =>
  match v with
  | PNone => false
  | PBool b => b
  | PInt z => negb (z =? 0)
  | PStr s => str_nonempty s
  end.

#[export] Instance list_truthy {A} : Truthy (list A) := fun l =>
  match l with [] => false | _ :: _ => true end.

#[export] Instance gmap_truthy `{Countable K} {A} : Truthy (gmap K A) := fun m =>
  negb (bool_decide (m = ∅)).

#[export] Instance Z_truthy : Truthy Z := fun z => negb (z =? 0).

(** [x or None] *)
Definition or_None {A} `{Truthy A} (x : A) : option A :=
  if truthy x then Some x else None.

(** [str(int)] *)
Definition str_of_Z (z : Z) : string := NilZero.string_of_int (Z.to_int z).

(** [str(x)], also what an f-string replacement field [{x}] produces. *)
Definition str (v : scalar) : string :=
  match v with
  | PNone => "None"
  | PBool true => "True"
  | PBool false => "False"
  | PInt z => str_of_Z z
  | PStr s => s
  end.

(** [sep.join(parts)] *)
Fixpoint join (sep : string) (parts : list string) : string :=
  match parts with
  | [] => ""
  | [p] => p
  | p :: rest => p +:+ sep +:+ join sep rest
  end.

End Py.
Import Py.

(* ===================================================================== *)
(** ** [caching.build_redis_url]                                          *)
(* ===================================================================== *)

(** [def build_redis_url(host, password, db, use_secure=True)].  The local
    variable [url] is rebound once, as in the source. *)
Definition build_redis_url (host password db use_secure : scalar) : string :=
  let prefix := if truthy use_secure then "rediss" else "redis" in
  let url :=
    if truthy password
    then prefix +:+ "://:" +:+ str password +:+ "@" +:+ str host
    else prefix +:+ "://" +:+ str host in
  let url := if truthy db then url +:+ "/" +:+ str db else url in
  url.

(** The call with [use_secure] left at its default. *)
Definition build_redis_url_default (host password db : scalar) : string :=
  build_redis_url host password db (PBool true).

(** Optional arguments as Python passes them: [None] or the value. *)
Definition of_opt_str (p : option string) : scalar :=
  match p with Some s => PStr s | None => PNone end.
Definition of_opt_int (d : option Z) : scalar :=
  match d with Some z => PInt z | None => PNone end.

(** The URL as the specification words it: scheme by the secure flag, the
    credential segment exactly when a password is given, the db segment
    exactly when a db index is given. *)
Definition build_redis_url_spec
    (h : string) (p : option string) (d : option Z) (s : bool) : string :=
  (if s then "rediss" else "redis") +:+ "://"
  +:+ match p with Some pw => ":" +:+ pw +:+ "@" | None => "" end
  +:+ h
  +:+ match d with Some z => "/" +:+ str_of_Z z | None => "" end.

(** What "given" means to the code: present and truthy. *)
Definition given_password (p : option string) : option string :=
  match p with Some s => if str_nonempty s then Some s else None | None => None end.
Definition given_db (d : option Z) : option Z :=
  match d with Some z => if z =? 0 then None else Some z | None => None end.

(* ===================================================================== *)
(** ** Exceptions and the state-and-exception monad                       *)
(* ===================================================================== *)

(** The exceptions that can cross the layer.  Only [ValueError] is ever
    raised by a [raise] of the package's own code (the legacy wrapper);
    [TypeError] is what the interpreter raises when a call cannot bind its
    arguments; the others come from the client library, the engine, or
    caller-supplied functions. *)
Inductive exn :=
| ValueError (msg : string)
| TypeError (msg : string)       (* a call that cannot bind its arguments *)
| AttributeError (msg : string)  (* a method looked up on [None] *)
| DataError (msg : string)       (* redis-py, before anything is sent *)
| ResponseError (msg : string)   (* error reply of the engine *)
| UserError (msg : string).      (* raised by a caller-supplied function *)

Inductive result (A : Type) :=
| Ok (a : A)
| Err (e : exn).
Arguments Ok {A} a.
Arguments Err {A} e.

(** A computation over a mutable state [St] that may raise; the state
    reached when the exception is raised is kept, as in Python. *)
Definition SE (St A : Type) : Type := St → result A * St.

#[global] Instance SE_ret {St} : MRet (SE St) := fun A a s => (Ok a, s).

#[global] Instance SE_bind {St} : MBind (SE St) := fun A B k m s =>
  match m s with
  | (Ok a, s') => k a s'
  | (Err e, s') => (Err e, s')
  end.

Definition raise {St A} (e : exn) : SE St A := fun s => (Err e, s).

(** A function that only computes (or raises), run inside a computation. *)
Definition lift {St A} (r : result A) : SE St A := fun s => (r, s).

(* ===================================================================== *)
(** ** The engine                                                         *)
(* ===================================================================== *)

(** The key-value engine is not part of the package.  Its commands are
    modelled after the engine's command reference and redis-py's argument
    checks, for the commands the package issues.  Replies are decoded text
    ([decode_responses=True], the holder's default).  There is no clock: a
    time-to-live is recorded as set and never counts down. *)
Module Engine.

Inductive rvalue :=
| RString (s : string)
| RHash (h : gmap string string)
| RList (l : list string).

Record entry := Entry { e_val : rvalue; e_ttl : option Z }.

Abbreviation db := (gmap string entry).

Definition WRONGTYPE : exn :=
  ResponseError "WRONGTYPE Operation against a key holding the wrong kind of value".

Definition wrong_arity (cmd : string) : exn :=
  ResponseError ("wrong number of arguments for '" +:+ cmd +:+ "' command").

(** GET *)
Definition get (k : string) (d : db) : result (option string) :=
  match d !! k with
  | None => Ok None
  | Some (Entry (RString s) _) => Ok (Some s)
  | Some _ => Err WRONGTYPE
  end.

(** SET: overwrites a value of any type and discards its time-to-live. *)
Definition set (k v : string) (d : db) : result db :=
  Ok (<[k := Entry (RString v) None]> d).

(** HGET *)
Definition hget (k f : string) (d : db) : result (option string) :=
  match d !! k with
  | None => Ok None
  | Some (Entry (RHash h) _) => Ok (h !! f)
  | Some _ => Err WRONGTYPE
  end.

(** HSET with one or more field/value pairs: sets these fields and keeps
    the others. *)
Definition hset (k : string) (fields : gmap string string) (d : db) : result db :=
  if bool_decide (fields = ∅) then Err (wrong_arity "hset") else
  match d !! k with
  | None => Ok (<[k := Entry (RHash fields) None]> d)
  | Some (Entry (RHash h) t) => Ok (<[k := Entry (RHash (fields ∪ h)) t]> d)
  | Some _ => Err WRONGTYPE
  end.

(** HGETALL: the empty mapping for a missing key. *)
Definition hgetall (k : string) (d : db) : result (gmap string string) :=
  match d !! k with
  | None => Ok ∅
  | Some (Entry (RHash h) _) => Ok h
  | Some _ => Err WRONGTYPE
  end.

(** DEL *)
Definition del (k : string) (d : db) : result db := Ok (delete k d).

(** RPUSH with one or more values: appends them in order. *)
Definition rpush (k : string) (vs : list string) (d : db) : result db :=
  match vs with
  | [] => Err (wrong_arity "rpush")
  | _ :: _ =>
      match d !! k with
      | None => Ok (<[k := Entry (RList vs) None]> d)
      | Some (Entry (RList l) t) => Ok (<[k := Entry (RList (l ++ vs)) t]> d)
      | Some _ => Err WRONGTYPE
      end
  end.

(** The elements of [l] from index [start] to index [stop], both
    inclusive; negative indices count from the end. *)
Definition slice (l : list string) (start stop : Z) : list string :=
  let len := Z.of_nat (length l) in
  let start := if start <? 0 then Z.max 0 (len + start) else start in
  let stop := if stop <? 0 then len + stop else stop in
  let stop := Z.min stop (len - 1) in
  if stop <? start then []
  else take (Z.to_nat (stop - start + 1)) (drop (Z.to_nat start) l).

(** LRANGE: the empty list for a missing key. *)
Definition lrange (k : string) (start stop : Z) (d : db) : result (list string) :=
  match d !! k with
  | None => Ok []
  | Some (Entry (RList l) _) => Ok (slice l start stop)
  | Some _ => Err WRONGTYPE
  end.

(** EXPIRE: a missing key is left alone; a time-to-live that is not
    positive deletes the key at once. *)
Definition expire (k : string) (seconds : Z) (d : db) : result db :=
  match d !! k with
  | None => Ok d
  | Some (Entry v _) =>
      if seconds <=? 0 then Ok (delete k d)
      else Ok (<[k := Entry v (Some seconds)]> d)
  end.

(** TTL: -2 for a missing key, -1 for a key without time-to-live. *)
Definition ttl (k : string) (d : db) : Z :=
  match d !! k with
  | None => -2
  | Some (Entry _ None) => -1
  | Some (Entry _ (Some n)) => n
  end.

(** EXISTS, Python's [key in client]. *)
Definition contains (k : string) (d : db) : bool :=
  bool_decide (is_Some (d !! k)).

End Engine.

(* ===================================================================== *)
(** ** The client library                                                 *)
(* ===================================================================== *)

(** A command as it leaves the client. *)
Inductive command :=
| GET (k : string)
| SET (k v : string)
| HGET (k f : string)
| HSET (k : string) (fields : gmap string string)
| HGETALL (k : string)
| DEL (k : string)
| RPUSH (k : string) (vs : list string)
| LRANGE (k : string) (start stop : Z)
| EXPIRE (k : string) (seconds : Z).

(** What a client acts on: the database behind its connection, and the
    commands it has sent (what a mock of the client would record). *)
Record session := Session { s_db : Engine.db; s_log : list command }.

(** Computations of a client: the methods of [redis.Redis] and whatever is
    written in terms of them.  The [client] argument of the Python methods
    is the session the computation runs in. *)
Abbreviation R := (SE session).

(** The nearest integer to [a / b], ties to the even one ([0 <= a],
    [0 < b]). *)
Definition nearest_even (a b : Z) : Z :=
  let q := a / b in
  let r := a mod b in
  if 2 * r <? b then q
  else if b <? 2 * r then q + 1
  else if Z.even q then q else q + 1.

(** [int(a / b)] for Python ints [0 <= a] and [0 < b]: [a / b] is the
    quotient correctly rounded to a double (a 53-bit mantissa [m] and an
    exponent [e], nearest, ties to even), and [int] drops the fraction. *)
Definition int_of_true_div_nonneg (a b : Z) : Z :=
  if a =? 0 then 0 else
  let l := Z.log2 a - Z.log2 b in
  let floor_log2 :=
    if (if 0 <=? l then b * 2 ^ l <=? a else b <=? a * 2 ^ (- l)) then l else l - 1 in
  let e := floor_log2 - 52 in
  let m := if 0 <=? e then nearest_even a (b * 2 ^ e)
           else nearest_even (a * 2 ^ (- e)) b in
  if 0 <=? e then m * 2 ^ e else m / 2 ^ (- e).

(** [int(a / b)] for [0 < b]: rounding is symmetric and [int] truncates
    toward zero. *)
Definition int_of_true_div (a b : Z) : Z :=
  if a <? 0 then - int_of_true_div_nonneg (- a) b else int_of_true_div_nonneg a b.

(** [int(time.total_seconds())] for a [timedelta], the number itself for an
    [int]: the argument of [expire] as redis-py sends it.  A [timedelta]
    is held as its whole number of microseconds; [total_seconds] divides
    it by [10**6] into a float. *)
Inductive timeval :=
| Seconds (n : Z)
| Timedelta (microseconds : Z).

#[global] Instance timeval_truthy : Truthy timeval := fun t =>
  match t with
  | Seconds n => negb (n =? 0)
  | Timedelta us => negb (us =? 0)
  end.

#[global] Instance option_truthy {A} `{Truthy A} : Truthy (option A) := fun o =>
  match o with
  | None => false
  | Some a => truthy a
  end.

Definition to_seconds (t : timeval) : Z :=
  match t with
  | Seconds n => n
  | Timedelta us => int_of_true_div us 1000000
  end.

Module Client.

Definition query {A} (c : command) (f : Engine.db → result A) : R A :=
  fun s => (f (s_db s), Session (s_db s) (s_log s ++ [c])).

Definition update (c : command) (f : Engine.db → result Engine.db) : R unit :=
  fun s =>
    match f (s_db s) with
    | Ok d' => (Ok tt, Session d' (s_log s ++ [c]))
    | Err e => (Err e, Session (s_db s) (s_log s ++ [c]))
    end.

Definition get (name : string) : R (option string) :=
  query (GET name) (Engine.get name).

Definition set (name value : string) : R unit :=
  update (SET name value) (Engine.set name value).

Definition hget (name key : string) : R (option string) :=
  query (HGET name key) (Engine.hget name key).

(** [hset(name, key=None, value=None, mapping=None)]: redis-py refuses a
    call without any pair; the pairs of [mapping] are sent after the
    [key]/[value] pair. *)
Definition hset (name : string) (key_value : option (string * string))
    (mapping : option (gmap string string)) : R unit :=
  if negb (bool_decide (is_Some key_value)) && negb (truthy mapping)
  then raise (DataError "'hset' with no key value pairs")
  else
    let first : gmap string string :=
      match key_value with Some (f, v) => {[f := v]} | None => ∅ end in
    let fields := default ∅ mapping ∪ first in
    update (HSET name fields) (Engine.hset name fields).

Definition hgetall (name : string) : R (gmap string string) :=
  query (HGETALL name) (Engine.hgetall name).

Definition delete (name : string) : R unit :=
  update (DEL name) (Engine.del name).

Definition rpush (name : string) (values : list string) : R unit :=
  update (RPUSH name values) (Engine.rpush name values).

Definition lrange (name : string) (start stop : Z) : R (list string) :=
  query (LRANGE name start stop) (Engine.lrange name start stop).

Definition expire (name : string) (time : timeval) : R unit :=
  update (EXPIRE name (to_seconds time)) (Engine.expire name (to_seconds time)).

End Client.

(* ===================================================================== *)
(** ** [cacheable.py]                                                     *)
(* ===================================================================== *)

(** [class Cacheable(Generic[StoreType], ABC)] *)
Record Cacheable (StoreType : Type) := {
  store : string → StoreType → R unit;
  fetch : string → R (option StoreType);
}.
Arguments store {StoreType} _ _ _.
Arguments fetch {StoreType} _ _.

Abbreviation ListCacheType := (list string).
Abbreviation DictCacheType := (gmap string string).

Definition StringCacheable : Cacheable string := {|
  store key value := Client.set key value;
  fetch key := Client.get key;
|}.

Definition DictStringCacheable (dict_key : string) : Cacheable string := {|
  store key value := Client.hset key (Some (dict_key, value)) None;
  fetch key := Client.hget key dict_key;
|}.

Definition DictCacheable : Cacheable DictCacheType := {|
  store key value := Client.hset key None (Some value);
  fetch key := v ← Client.hgetall key; mret (or_None v);
|}.

Definition ListCacheable : Cacheable ListCacheType := {|
  store key value := Client.delete key;; Client.rpush key value;
  fetch key := v ← Client.lrange key 0 (-1); mret (or_None v);
|}.

(* ===================================================================== *)
(** ** [cache_element.py]                                                 *)
(* ===================================================================== *)

(** [class CacheElement(Generic[FetchType, StoreType], ABC)] with its two
    abstract methods; [load] and [dump] may raise. *)
Record CacheElement (FetchType StoreType : Type) := {
  cacheable : Cacheable StoreType;
  load : StoreType → result FetchType;
  dump : FetchType → result StoreType;
}.
Arguments cacheable {FetchType StoreType} _.
Arguments load {FetchType StoreType} _ _.
Arguments dump {FetchType StoreType} _ _.

Section CacheElementMethods.
Context {FetchType StoreType : Type}.
Implicit Types self : CacheElement FetchType StoreType.

Definition get_value self (key : string) : R (option FetchType) :=
  value ← fetch (cacheable self) key;
  match value with
  | None => mret None
  | Some value => v ← lift (load self value); mret (Some v)
  end.

Definition set_value self (key : string) (value : FetchType) : R unit :=
  dumped ← lift (dump self value);
  store (cacheable self) key dumped.
End CacheElementMethods.

Definition CacheElementSingleType {FetchType} (cacheable : Cacheable FetchType)
    : CacheElement FetchType FetchType := {|
  cacheable := cacheable;
  load value := Ok value;
  dump value := Ok value;
|}.

Section CacheDateTime.
(** [datetime], [datetime.isoformat] and [datetime.fromisoformat] of the
    standard library. *)
Variable datetime : Type.
Variable isoformat : datetime → string.
Variable fromisoformat : string → result datetime.

Definition CacheDateTime : CacheElement datetime string := {|
  cacheable := StringCacheable;
  dump value := Ok (isoformat value);
  load value := fromisoformat value;
|}.
End CacheDateTime.

(* ===================================================================== *)
(** ** The process: client objects, servers, and what was called          *)
(* ===================================================================== *)

(** The URL a holder is configured with; [RedisCaching()] leaves it [None]. *)
Abbreviation url := (option string).

(** A client object.  [r_id] is its identity: two clients are the same
    object exactly when their ids agree. *)
Record Redis := {
  r_id : nat;
  r_cls : string;
  r_url : url;
  r_kwargs : gmap string scalar;
}.

Inductive event :=
| ECall (name : string)                  (* the wrapped function was invoked *)
| ECmd (client : nat) (c : command)      (* a client sent a command *)
| EFromUrl (cls : string) (u : url).     (* [cls.from_url] built a client *)

Record World := {
  cache_instances : gmap url Redis;   (* [RedisCaching._cache_instances] *)
  next_id : nat;                      (* clients constructed so far *)
  servers : gmap url Engine.db;       (* the database behind each URL, filed
                                         by the URL's text: two URLs that name
                                         one server are two entries here *)
  trace : list event;
}.

Abbreviation M := (SE World).

Definition server_of (w : World) (c : Redis) : Engine.db :=
  default ∅ (servers w !! r_url c).

(** Run a client computation on the client object [c]. *)
Definition on {A} (c : Redis) (m : R A) : M A := fun w =>
  let '(r, s) := m (Session (server_of w c) []) in
  (r, {| cache_instances := cache_instances w;
         next_id := next_id w;
         servers := <[r_url c := s_db s]> (servers w);
         trace := trace w ++ (ECmd (r_id c) <$> s_log s) |}).

Definition log (e : event) : M unit := fun w =>
  (Ok tt, {| cache_instances := cache_instances w;
             next_id := next_id w;
             servers := servers w;
             trace := trace w ++ [e] |}).

(** How often the wrapped function [name] was invoked. *)
Definition is_call (name : string) (e : event) : bool :=
  match e with
  | ECall n => bool_decide (n = name)
  | _ => false
  end.

Definition calls (name : string) (t : list event) : nat :=
  length (filter (fun e => is_call name e = true) t).

(** The commands [client] sent that write under a key. *)
Definition is_write (e : event) : bool :=
  match e with
  | ECmd _ (SET _ _) | ECmd _ (HSET _ _) | ECmd _ (RPUSH _ _) | ECmd _ (DEL _) => true
  | _ => false
  end.

Definition writes (t : list event) : nat :=
  length (filter (fun e => is_write e = true) t).

(* ===================================================================== *)
(** ** [caching.RedisCaching]                                             *)
(* ===================================================================== *)

(** A client class, as far as the holder uses it: its name, and what its
    [from_url] raises for a URL it does not accept. *)
Record cache_class := {
  cls_name : string;
  from_url_refuses : url → option exn;
}.

Definition from_url_ok (cls : cache_class) (u : url) : bool :=
  match from_url_refuses cls u with
  | None => true
  | Some _ => false
  end.

(** [redis.Redis]: the URL must be text ([None] has no [startswith]) that
    carries one of the supported schemes.  What else the library reads in
    a URL (the port, the options of the query) is not looked at here. *)
Definition Redis_cls : cache_class := {|
  cls_name := "Redis";
  from_url_refuses u :=
    match u with
    | Some s =>
        if String.prefix "redis://" s || String.prefix "rediss://" s
           || String.prefix "unix://" s
        then None
        else Some (ValueError "Redis URL must specify one of the following schemes (redis://, rediss://, unix://)")
    | None => Some (AttributeError "'NoneType' object has no attribute 'startswith'")
    end;
|}.

(** [testing.FakeRedis]: [from_url] drops the URL and builds the client from the keyword arguments alone. *)
Definition FakeRedis : cache_class := {|
  cls_name := "FakeRedis";
  from_url_refuses _ := None;
|}.

Definition from_url (cls : cache_class) (u : url) (kwargs : gmap string scalar)
    : M Redis := fun w =>
  match from_url_refuses cls u with
  | None =>
      (Ok {| r_id := next_id w; r_cls := cls_name cls; r_url := u; r_kwargs := kwargs |},
       {| cache_instances := cache_instances w;
          next_id := S (next_id w);
          servers := servers w;
          trace := trace w ++ [EFromUrl (cls_name cls) u] |})
  | Some e => (Err e, w)
  end.

Record RedisCaching := {
  cache_cls : cache_class;
  _url : url;
  _cache_kwargs : gmap string scalar;
}.

Definition _default_cache_kwargs : gmap string scalar :=
  {[ "decode_responses" := PBool true; "socket_timeout" := PInt 15 ]}.

(** [init(self, url, **kwargs)]: [{**self._default_cache_kwargs, **kwargs}]. *)
Definition init (self : RedisCaching) (u : url) (kwargs : gmap string scalar)
    : RedisCaching := {|
  cache_cls := cache_cls self;
  _url := u;
  _cache_kwargs := kwargs ∪ _default_cache_kwargs;
|}.

(** [cls(url, **kwargs)] for [cls] a subclass of [RedisCaching] whose
    [cache_cls] attribute is [cls]. *)
Definition RedisCaching_new (cls : cache_class) (u : url)
    (kwargs : gmap string scalar) : RedisCaching :=
  init {| cache_cls := cls; _url := None; _cache_kwargs := ∅ |} u kwargs.

(** [self._url in self._cache_instances] and [self._cache_instances.get]. *)
Definition lookup_instance (u : url) : M (option Redis) := fun w =>
  (Ok (cache_instances w !! u), w).

(** [self._cache_instances[self._url] = cache] *)
Definition set_instance (u : url) (cache : Redis) : M unit := fun w =>
  (Ok tt, {| cache_instances := <[u := cache]> (cache_instances w);
             next_id := next_id w;
             servers := servers w;
             trace := trace w |}).

Definition get_cache (self : RedisCaching) : M Redis :=
  found ← lookup_instance (_url self);
  match found with
  | Some cache => mret cache
  | None =>
      cache ← from_url (cache_cls self) (_url self) (_cache_kwargs self);
      set_instance (_url self) cache;;
      mret cache
  end.

Definition RedisCaching_delete (self : RedisCaching) (cache_key : string) : M unit :=
  cache ← get_cache self;
  on cache (Client.delete cache_key).

(* ===================================================================== *)
(** ** Arguments of a call                                                *)
(* ===================================================================== *)

(** [repr] of a [str], for text within ASCII: single quotes unless the text
    holds a single and no double quote; the quote and the backslash are
    escaped, control characters are written as escapes. *)
Module Repr.
Definition squote : ascii := ascii_of_nat 39.
Definition dquote : ascii := ascii_of_nat 34.
Definition backslash : ascii := ascii_of_nat 92.

Fixpoint mem (c : ascii) (s : string) : bool :=
  match s with
  | EmptyString => false
  | String c' s' => Ascii.eqb c c' || mem c s'
  end.

Definition hex_digit (n : nat) : ascii :=
  nth n (list_ascii_of_string "0123456789abcdef") "0"%char.

Definition escape (quote c : ascii) : string :=
  let n := nat_of_ascii c in
  if Ascii.eqb c quote || Ascii.eqb c backslash then String backslash (String c "")
  else if (n =? 9)%nat then "\t"
  else if (n =? 10)%nat then "\n"
  else if (n =? 13)%nat then "\r"
  else if (n <? 32)%nat || (n =? 127)%nat
       then "\x" +:+ String (hex_digit (n / 16)) (String (hex_digit (n mod 16)) "")
  else String c "".

Fixpoint escape_all (quote : ascii) (s : string) : string :=
  match s with
  | EmptyString => ""
  | String c s' => escape quote c +:+ escape_all quote s'
  end.

Definition repr_str (s : string) : string :=
  let quote := if mem squote s && negb (mem dquote s) then dquote else squote in
  String quote (escape_all quote s +:+ String quote "").
End Repr.

(** The objects passed to a decorated function: all the layer does with
    them is [str] and, within [str(kwargs)], [repr]. *)
Class PyObject (Obj : Type) := {
  obj_str : Obj → string;
  obj_repr : Obj → string;
}.

#[global] Instance scalar_object : PyObject scalar := {|
  obj_str := str;
  obj_repr v := match v with PStr s => Repr.repr_str s | _ => str v end;
|}.

(** Keyword arguments: a [dict], which keeps insertion order. *)
Abbreviation kwargs_t Obj := (list (string * Obj)).

(** [kwargs[key] = value]: a key already present keeps its place. *)
Fixpoint kwargs_set {Obj} (key : string) (value : Obj) (kwargs : kwargs_t Obj)
    : kwargs_t Obj :=
  match kwargs with
  | [] => [(key, value)]
  | (k, v) :: rest =>
      if bool_decide (k = key) then (k, value) :: rest
      else (k, v) :: kwargs_set key value rest
  end.

(** [kwargs.get(key)]: the value a keyword maps to, if it is there. *)
Fixpoint kwargs_get {Obj} (key : string) (kwargs : kwargs_t Obj) : option Obj :=
  match kwargs with
  | [] => None
  | (k, v) :: rest => if bool_decide (k = key) then Some v else kwargs_get key rest
  end.

(** [str(kwargs)] *)
Definition str_kwargs {Obj} `{PyObject Obj} (kwargs : kwargs_t Obj) : string :=
  "{" +:+ join ", " ((fun kv => Repr.repr_str kv.1 +:+ ": " +:+ obj_repr kv.2) <$> kwargs) +:+ "}".

(** A returned value handed on as an argument ([kwargs["value"] = value]). *)
Class AsObject (A Obj : Type) := as_obj : A → Obj.

#[global] Instance string_as_scalar : AsObject string scalar := PStr.

(** A callable taking [*args, **kwargs]. *)
Abbreviation callable Obj A := (list Obj → kwargs_t Obj → result A).

(** A function object: its [__name__] and what calling it computes. *)
Record function (Obj A : Type) := {
  __name__ : string;
  body : callable Obj A;
}.
Arguments __name__ {Obj A} _.
Arguments body {Obj A} _.

(** What the interpreter raises when a keyword [value] of the caller meets
    the parameter [value] of [_calculate_expire_in] (from Python 3.10 on
    the message names the class as well). *)
Definition multiple_values : exn :=
  TypeError "_calculate_expire_in() got multiple values for argument 'value'".

(** The [expire_in] attribute: [None], an [int], a [timedelta], or (after
    the [expire_in] decorator) a callable returning one of these. *)
Inductive expire_cfg (Obj : Type) :=
| Fixed (t : option timeval)
| Computed (f : callable Obj (option timeval)).
Arguments Fixed {Obj} t.
Arguments Computed {Obj} f.

(* ===================================================================== *)
(** ** [caching.CacheValueWrapper]                                        *)
(* ===================================================================== *)

Section Wrapper.
Context {Obj FetchType StoreType : Type}.
Context `{!PyObject Obj, !AsObject FetchType Obj}.

Record CacheValueWrapper := {
  _caching : RedisCaching;
  _func : function Obj FetchType;
  _cache_element : CacheElement FetchType StoreType;
  _get_cache_key : option (callable Obj string);
  _expire_in : expire_cfg Obj;
}.

Implicit Types (self : CacheValueWrapper) (args : list Obj) (kwargs : kwargs_t Obj).

(** [def _calculate_expire_in(self, value, *args, **kwargs)], called as
    [self._calculate_expire_in(value, *args, **kwargs)]: the result of the
    wrapped function is bound to the parameter [value], so the call cannot
    bind keyword arguments that hold a [value] of their own, whatever
    [_expire_in] is. *)
Definition _calculate_expire_in self (value : FetchType) args kwargs
    : result (option timeval) :=
  match kwargs_get "value" kwargs with
  | Some _ => Err multiple_values
  | None =>
      match _expire_in self with
      | Computed f =>
          let kwargs := kwargs_set "value" (as_obj value) kwargs in
          f args kwargs
      | Fixed t => Ok t
      end
  end.

Definition _calculate_cache_key self args kwargs : result string :=
  match _get_cache_key self with
  | None =>
      let arg_str :=
        join ":" ([__name__ (_func self)] ++ (obj_str <$> args) ++ [str_kwargs kwargs]) in
      Ok (join ":" ["redis_decorators"; arg_str])
  | Some f => f args kwargs
  end.

(** Calling the wrapped function, which a mock of it would record. *)
Definition invoke (f : function Obj FetchType) args kwargs : M FetchType :=
  log (ECall (__name__ f));;
  lift (body f args kwargs).

Definition __call__ self args kwargs : M FetchType :=
  cache_key ← lift (_calculate_cache_key self args kwargs);
  cache ← get_cache (_caching self);
  value ← on cache (get_value (_cache_element self) cache_key);
  match value with
  | None =>
      client ← get_cache (_caching self);
      value ← invoke (_func self) args kwargs;
      on client (set_value (_cache_element self) cache_key value);;
      expire_in ← lift (_calculate_expire_in self value args kwargs);
      match expire_in with
      | Some t =>
          if truthy t then on client (Client.expire cache_key t) else mret tt
      | None => mret tt
      end;;
      mret value
  | Some value => mret value
  end.

(** [partial(self, instance)]: the receiver becomes the first argument. *)
Definition __get__ self (instance : Obj) : list Obj → kwargs_t Obj → M FetchType :=
  fun args kwargs => __call__ self (instance :: args) kwargs.

(** [self._get_cache_key = func] *)
Definition cache_key self (func : callable Obj string) : CacheValueWrapper := {|
  _caching := _caching self;
  _func := _func self;
  _cache_element := _cache_element self;
  _get_cache_key := Some func;
  _expire_in := _expire_in self;
|}.

(** [self._expire_in = func] *)
Definition expire_in self (func : callable Obj (option timeval)) : CacheValueWrapper := {|
  _caching := _caching self;
  _func := _func self;
  _cache_element := _cache_element self;
  _get_cache_key := _get_cache_key self;
  _expire_in := Computed func;
|}.

(** [RedisCaching.cache_value(cache_element, get_cache_key, expire_in)],
    applied to the function it decorates. *)
Definition cache_value (caching : RedisCaching)
    (cache_element : CacheElement FetchType StoreType)
    (get_cache_key : option (callable Obj string))
    (expire_in : option timeval)
    (func : function Obj FetchType) : CacheValueWrapper := {|
  _caching := caching;
  _func := func;
  _cache_element := cache_element;
  _get_cache_key := get_cache_key;
  _expire_in := Fixed expire_in;
|}.
End Wrapper.
Arguments CacheValueWrapper : clear implicits.

Section Decorators.
Context {Obj : Type} `{!PyObject Obj}.
Implicit Types (caching : RedisCaching) (get_cache_key : option (callable Obj string))
  (expire_in : option timeval).

Definition cache_string `{!AsObject string Obj} caching get_cache_key expire_in :=
  cache_value caching (CacheElementSingleType StringCacheable) get_cache_key expire_in.

Definition cache_dict `{!AsObject DictCacheType Obj} caching get_cache_key expire_in :=
  cache_value caching (CacheElementSingleType DictCacheable) get_cache_key expire_in.

Definition cache_dict_string `{!AsObject string Obj} caching (dict_key : string)
    get_cache_key expire_in :=
  cache_value caching (CacheElementSingleType (DictStringCacheable dict_key))
    get_cache_key expire_in.

Definition cache_list `{!AsObject ListCacheType Obj} caching get_cache_key expire_in :=
  cache_value caching (CacheElementSingleType ListCacheable) get_cache_key expire_in.

Definition cache_datetime {datetime} `{!AsObject datetime Obj}
    (isoformat : datetime → string) (fromisoformat : string → result datetime)
    caching get_cache_key expire_in :=
  cache_value caching (CacheDateTime datetime isoformat fromisoformat)
    get_cache_key expire_in.
End Decorators.

(* ===================================================================== *)
(** ** [redis_utils.decorators.CacheValue], the wrapper of the old package *)
(* ===================================================================== *)

Module Legacy.
Section CacheValue.
Context {Obj FetchType StoreType : Type}.

(** Modelled from the spec: [redis_utils/cache_element.py], which
    [decorators.py] imports, is not among the sources.  Its cache element
    is taken to be the one of section 3 of the specification, an adapter
    paired with load and dump transforms, that is [CacheElement] with
    [get_value] and [set_value] as above. *)
Definition LegacyCacheElement := CacheElement FetchType StoreType.

Record CacheValue := {
  client : Redis;
  func : function Obj FetchType;
  cache_element : LegacyCacheElement;
  get_cache_key : option (callable Obj string);
}.

Implicit Types (self : CacheValue) (args : list Obj) (kwargs : kwargs_t Obj).

Definition _get_cache_key self args kwargs : result string :=
  match get_cache_key self with
  | None => Err (ValueError "cache_value: must define get_cache_key.")
  | Some f => f args kwargs
  end.

Definition invoke (f : function Obj FetchType) args kwargs : M FetchType :=
  log (ECall (__name__ f));;
  lift (body f args kwargs).

Definition __call__ self args kwargs : M FetchType :=
  cache_key ← lift (_get_cache_key self args kwargs);
  value ← on (client self) (get_value (cache_element self) cache_key);
  match value with
  | None =>
      value ← invoke (func self) args kwargs;
      on (client self) (set_value (cache_element self) cache_key value);;
      mret value
  | Some value => mret value
  end.

(** [self.get_cache_key = func; return self] *)
Definition cache_key self (f : callable Obj string) : CacheValue := {|
  client := client self;
  func := func self;
  cache_element := cache_element self;
  get_cache_key := Some f;
|}.
End CacheValue.
Arguments CacheValue : clear implicits.
End Legacy.


(* ===================================================================== *)
(** ** Properties of the specification, worded                            *)
(* ===================================================================== *)

(** "[fetch] after [store(k, v)] returns [v]", on any state. *)
Definition roundtrip {S} (a : Cacheable S) : Prop :=
  ∀ (k : string) (v : S) (s : session),
    (fetch a k (store a k v s).2).1 = Ok (Some v).

(** The four adapters the package ships. *)
Inductive builtin_adapter : ∀ S : Type, Cacheable S → Prop :=
| builtin_string : builtin_adapter string StringCacheable
| builtin_dict_string dict_key : builtin_adapter string (DictStringCacheable dict_key)
| builtin_dict : builtin_adapter DictCacheType DictCacheable
| builtin_list : builtin_adapter ListCacheType ListCacheable.

(** The key holds nothing. *)
Definition unset (k : string) (s : session) : Prop := s_db s !! k = None.

(** The world before anything ran. *)
Definition fresh_world : World :=
  {| cache_instances := ∅; next_id := 0; servers := ∅; trace := [] |}.

(** The empty session. *)
Definition fresh_session : session := Session ∅ [].

(** The last step of a call that missed: [if expire_in: client.expire(...)]. *)
Definition apply_ttl (c : Redis) (k : string) (t : option timeval) : M unit :=
  match t with
  | Some t => if truthy t then on c (Client.expire k t) else mret tt
  | None => mret tt
  end.

(** A time-to-live that, once applied, leaves the key in place: none, a
    falsy one (not applied), or one of at least a second. *)
Definition ttl_keeps (t : option timeval) : Prop :=
  match t with
  | Some t => truthy t = true → 0 < to_seconds t
  | None => True
  end.

(** The fixtures of [tests/test_caching.py]: the holder over [FakeRedis]
    with no URL, a decorated function, and a key function.  Both functions
    take whatever arguments they are called with and return a constant, as
    the [mock.Mock] key function of the tests does. *)
Definition test_caching : RedisCaching := RedisCaching_new FakeRedis None ∅.

Definition decorated_function : function scalar string :=
  {| __name__ := "decorated_function"; body := fun _ _ => Ok "string-value" |}.

Definition test_get_cache_key : callable scalar string := fun _ _ => Ok "cache-key".

(** [@cache.cache_string(get_cache_key=get_cache_key)] and
    [@cache.cache_string()] on the decorated function. *)
Definition keyed_wrapper : CacheValueWrapper scalar string string :=
  cache_string test_caching (Some test_get_cache_key) None decorated_function.

Definition unkeyed_wrapper : CacheValueWrapper scalar string string :=
  cache_string test_caching None None decorated_function.

(** [test_expiration]: [expire_in=timedelta(seconds=12)]; and
    [test_expire_in_decorator]: an [expire_in] function returning 15. *)
Definition expiring_wrapper : CacheValueWrapper scalar string string :=
  cache_string test_caching (Some test_get_cache_key)
    (Some (Timedelta 12000000)) decorated_function.

Definition value_expires_in : callable scalar (option timeval) :=
  fun _ _ => Ok (Some (Seconds 15)).

(** The client of the fixtures: the first client the process constructs. *)
Definition test_client : Redis :=
  {| r_id := 0; r_cls := "FakeRedis"; r_url := None; r_kwargs := _default_cache_kwargs |}.

(** A wrapper of the old package without key function. *)
Definition legacy_unkeyed : Legacy.CacheValue scalar string string :=
  {| Legacy.client := test_client;
     Legacy.func := decorated_function;
     Legacy.cache_element := CacheElementSingleType StringCacheable;
     Legacy.get_cache_key := None |}.

(** A trace grows: nothing that ran is forgotten. *)
Definition extends (w w' : World) : Prop := ∃ t, trace w' = (trace w ++ t)%list.

(** What the layer does to the process between two calls: a holder asks
    for its client, a client runs commands, a wrapped function is invoked. *)
Inductive activity :=
| GetCache (h : RedisCaching)
| Commands (c : Redis) (m : R unit)
| Invoked (name : string).

Definition perform (a : activity) : M unit :=
  match a with
  | GetCache h => get_cache h;; mret tt
  | Commands c m => on c m
  | Invoked name => log (ECall name)
  end.

(** A list of activities in turn; results and errors are dropped, the
    world is threaded through. *)
Fixpoint activities (acts : list activity) (w : World) : World :=
  match acts with
  | [] => w
  | a :: rest => activities rest (perform a w).2
  end.

(* ===================================================================== *)
(** ** Kinds of values, datetimes, and further fixtures                   *)
(* ===================================================================== *)

(** The kind of value a key holds, and the kind each adapter reads and
    writes. *)
Inductive kind := KString | KHash | KList.

Definition kind_of (x : Engine.rvalue) : kind :=
  match x with
  | Engine.RString _ => KString
  | Engine.RHash _ => KHash
  | Engine.RList _ => KList
  end.

Inductive adapter_kind : ∀ S : Type, Cacheable S → kind → Prop :=
| kind_string : adapter_kind string StringCacheable KString
| kind_dict_string dict_key : adapter_kind string (DictStringCacheable dict_key) KHash
| kind_dict : adapter_kind DictCacheType DictCacheable KHash
| kind_list : adapter_kind ListCacheType ListCacheable KList.

(** Naive [datetime.datetime] values of the standard library, with
    [isoformat], [str] and [repr] as the library prints them, and
    [fromisoformat] for the two shapes [isoformat] prints
    ([YYYY-MM-DDTHH:MM:SS] and [YYYY-MM-DDTHH:MM:SS.ffffff]); the other
    shapes the library reads (a date alone, shorter times, offsets) are
    outside this model. *)
Module Datetime.

Record t := {
  year : Z; month : Z; day : Z;
  hour : Z; minute : Z; second : Z; microsecond : Z;
}.

Definition digit (n : Z) : ascii := ascii_of_nat (48 + Z.to_nat (n mod 10)).

(** [n] in decimal, zero-padded to [width] digits. *)
Fixpoint pad (width : nat) (n : Z) : string :=
  match width with
  | O => ""
  | S w => pad w (n / 10) +:+ String (digit n) ""
  end.

Definition isoformat_sep (sep : string) (d : t) : string :=
  pad 4 (year d) +:+ "-" +:+ pad 2 (month d) +:+ "-" +:+ pad 2 (day d)
  +:+ sep
  +:+ pad 2 (hour d) +:+ ":" +:+ pad 2 (minute d) +:+ ":" +:+ pad 2 (second d)
  +:+ (if microsecond d =? 0 then "" else "." +:+ pad 6 (microsecond d)).

Definition isoformat : t → string := isoformat_sep "T".

(** [str(d)] is [d.isoformat(sep=' ')]. *)
Definition to_str : t → string := isoformat_sep " ".

(** [repr(d)]: trailing zero seconds and microseconds are left out. *)
Definition repr (d : t) : string :=
  let fields := [year d; month d; day d; hour d; minute d; second d; microsecond d] in
  let fields := if microsecond d =? 0 then take 6 fields else fields in
  let fields :=
    if (microsecond d =? 0) && (second d =? 0) then take 5 fields else fields in
  "datetime.datetime(" +:+ join ", " (str_of_Z <$> fields) +:+ ")".

Definition digit_of (c : ascii) : option Z :=
  let n := Z.of_nat (nat_of_ascii c) in
  if (48 <=? n) && (n <=? 57) then Some (n - 48) else None.

Fixpoint number (s : string) (acc : Z) : option Z :=
  match s with
  | EmptyString => Some acc
  | String c s' =>
      match digit_of c with
      | Some d => number s' (10 * acc + d)
      | None => None
      end
  end.

Definition field (s : string) (start len : nat) : option Z :=
  number (String.substring start len s) 0.

Definition char_at (s : string) (i : nat) (c : ascii) : bool :=
  match String.get i s with
  | Some c' => Ascii.eqb c c'
  | None => false
  end.

Definition is_leap (y : Z) : bool :=
  (y mod 4 =? 0) && (negb (y mod 100 =? 0) || (y mod 400 =? 0)).

Definition days_in_month (y m : Z) : Z :=
  if m =? 2 then (if is_leap y then 29 else 28)
  else if (m =? 4) || (m =? 6) || (m =? 9) || (m =? 11) then 30
  else 31.

(** The range checks of the [datetime] constructor, in its order, with
    its messages. *)
Definition range_error (d : t) : option string :=
  if negb ((1 <=? year d) && (year d <=? 9999))
  then Some ("year " +:+ str_of_Z (year d) +:+ " is out of range")
  else if negb ((1 <=? month d) && (month d <=? 12))
  then Some "month must be in 1..12"
  else if negb ((1 <=? day d) && (day d <=? days_in_month (year d) (month d)))
  then Some "day is out of range for month"
  else if negb ((0 <=? hour d) && (hour d <=? 23))
  then Some "hour must be in 0..23"
  else if negb ((0 <=? minute d) && (minute d <=? 59))
  then Some "minute must be in 0..59"
  else if negb ((0 <=? second d) && (second d <=? 59))
  then Some "second must be in 0..59"
  else if negb ((0 <=? microsecond d) && (microsecond d <=? 999999))
  then Some "microsecond must be in 0..999999"
  else None.

Definition parse (s : string) : option t :=
  let n := String.length s in
  if negb ((n =? 19)%nat || (n =? 26)%nat) then None
  else if negb (char_at s 4 "-" && char_at s 7 "-" && char_at s 13 ":" && char_at s 16 ":")
  then None
  else if (n =? 26)%nat && negb (char_at s 19 ".") then None
  else
    match field s 0 4, field s 5 2, field s 8 2,
          field s 11 2, field s 14 2, field s 17 2,
          (if (n =? 26)%nat then field s 20 6 else Some 0) with
    | Some y, Some mo, Some d, Some h, Some mi, Some se, Some us =>
        Some {| year := y; month := mo; day := d;
                hour := h; minute := mi; second := se; microsecond := us |}
    | _, _, _, _, _, _, _ => None
    end.

(** [datetime.fromisoformat]: [ValueError] for text that is not of the
    shape, or whose fields are out of range. *)
Definition fromisoformat (s : string) : result t :=
  match parse s with
  | Some d =>
      match range_error d with
      | None => Ok d
      | Some msg => Err (ValueError msg)
      end
  | None => Err (ValueError ("Invalid isoformat string: " +:+ Repr.repr_str s))
  end.

End Datetime.

(** The objects passed to and returned by the decorated functions of the
    fixtures: scalars, datetimes and lists of strings. *)
Inductive object :=
| OScalar (v : scalar)
| ODatetime (d : Datetime.t)
| OList (l : list string).

#[global] Instance object_object : PyObject object := {|
  obj_str o :=
    match o with
    | OScalar v => obj_str v
    | ODatetime d => Datetime.to_str d
    | OList l => "[" +:+ join ", " (Repr.repr_str <$> l) +:+ "]"
    end;
  obj_repr o :=
    match o with
    | OScalar v => obj_repr v
    | ODatetime d => Datetime.repr d
    | OList l => "[" +:+ join ", " (Repr.repr_str <$> l) +:+ "]"
    end;
|}.

#[global] Instance datetime_as_object : AsObject Datetime.t object := ODatetime.
#[global] Instance list_as_object : AsObject ListCacheType object := OList.
#[global] Instance string_as_object : AsObject string object := fun s => OScalar (PStr s).

(** [now] of the test suite, at a fixed instant. *)
Definition test_now : Datetime.t :=
  {| Datetime.year := 2021; Datetime.month := 3; Datetime.day := 4;
     Datetime.hour := 5; Datetime.minute := 6; Datetime.second := 7;
     Datetime.microsecond := 89 |}.

Definition object_cache_key : callable object string := fun _ _ => Ok "cache-key".

(** [@cache.cache_datetime(get_cache_key=get_cache_key)] on a function that
    returns [now]. *)
Definition datetime_wrapper : CacheValueWrapper object Datetime.t string :=
  cache_datetime Datetime.isoformat Datetime.fromisoformat
    test_caching (Some object_cache_key) None
    {| __name__ := "decorated_function"; body := fun _ _ => Ok test_now |}.

(** [@cache.cache_list(get_cache_key=get_cache_key)] on a function that
    returns the empty list. *)
Definition empty_list_wrapper : CacheValueWrapper object ListCacheType ListCacheType :=
  cache_list test_caching (Some object_cache_key) None
    {| __name__ := "decorated_function"; body := fun _ _ => Ok [] |}.

(** A decorated function that raises. *)
Definition failing_wrapper : CacheValueWrapper scalar string string :=
  cache_string test_caching (Some test_get_cache_key) None
    {| __name__ := "decorated_function";
       body := fun _ _ => Err (UserError "lookup failed") |}.

(** [expire_in=timedelta(milliseconds=500)] and [expire_in=0]. *)
Definition short_lived_wrapper : CacheValueWrapper scalar string string :=
  cache_string test_caching (Some test_get_cache_key)
    (Some (Timedelta 500000)) decorated_function.

Definition zero_ttl_wrapper : CacheValueWrapper scalar string string :=
  cache_string test_caching (Some test_get_cache_key)
    (Some (Seconds 0)) decorated_function.

(** An [expire_in] function that raises. *)
Definition failing_expires_in : callable scalar (option timeval) :=
  fun _ _ => Err (UserError "no time-to-live").

(** An [expire_in] function that uses what it is passed,
    [def expires_in(arg1, value): return arg1 + len(value)]: it cannot be
    called with other arguments than one positional and the keyword
    [value]. *)
Definition sum_expires_in : callable scalar (option timeval) := fun args kwargs =>
  match args, kwargs with
  | [PInt arg1], [(key, PStr value)] =>
      if bool_decide (key = "value")
      then Ok (Some (Seconds (arg1 + Z.of_nat (String.length value))))
      else Err (TypeError "expires_in() got an unexpected keyword argument")
  | _, _ => Err (TypeError "expires_in() missing or unexpected arguments")
  end.

(** The wrapper of the old package on the key function of the fixtures. *)
Definition legacy_keyed : Legacy.CacheValue scalar string string :=
  Legacy.cache_key legacy_unkeyed test_get_cache_key.

(** A client computation that leaves every key but [k] as it was. *)
Definition touches_only {A} (k : string) (m : R A) : Prop :=
  ∀ (s : session) (k' : string), k' ≠ k → s_db (m s).2 !! k' = s_db s !! k'.

(** Between two worlds, nothing changed in the database of the client [c]
    but, at most, what it holds under [k]. *)
Definition same_elsewhere (k : string) (c : Redis) (w w' : World) : Prop :=
  ∀ k', k' ≠ k → server_of w' c !! k' = server_of w c !! k'.

(** The registry holds every client under the URL it was built from, holds
    only clients that were constructed, and holds no client under two
    URLs. *)
Definition registry_ok (w : World) : Prop :=
  ∀ u c, cache_instances w !! u = Some c →
    r_url c = u
    ∧ (r_id c < next_id w)%nat
    ∧ ∀ u' c', cache_instances w !! u' = Some c' → r_id c' = r_id c → u' = u.

(* ===================================================================== *)
(** ** Proof tools                                                        *)
(* ===================================================================== *)

Ltac se_unfold :=
  unfold mbind, mret, SE_bind, SE_ret, lift, raise in *.

Ltac se_simpl := repeat (se_unfold; cbn in *).

Lemma append_assoc (a b c : string) : (a +:+ b) +:+ c = a +:+ b +:+ c.
Proof.
  induction a as [|x a IH]; [reflexivity|].
  change (String x ((a +:+ b) +:+ c) = String x (a +:+ b +:+ c)).
  f_equal; exact IH.
Qed.

Lemma append_empty_r (a : string) : a +:+ "" = a.
Proof.
  induction a as [|x a IH]; [reflexivity|].
  change (String x (a +:+ "") = String x a).
  f_equal; exact IH.
Qed.

(** Setting a keyword that is not there puts it last. *)
Lemma kwargs_set_new {Obj} (key : string) (value : Obj) (kwargs : kwargs_t Obj) :
  kwargs_get key kwargs = None →
  kwargs_set key value kwargs = (kwargs ++ [(key, value)])%list.
Proof.
  induction kwargs as [|[k v] rest IH]; cbn [kwargs_set kwargs_get app]; [reflexivity|].
  case_bool_decide; [discriminate|]. intros Hnone. now rewrite IH.
Qed.

Lemma slice_all (l : list string) : Engine.slice l 0 (-1) = l.
Proof.
  unfold Engine.slice. cbn [Z.ltb Z.compare].
  destruct l as [|x l]; [reflexivity|].
  replace (Z.min (Z.of_nat (length (x :: l)) + -1) (Z.of_nat (length (x :: l)) - 1))
    with (Z.of_nat (length (x :: l)) - 1) by lia.
  destruct (Z.ltb_spec (Z.of_nat (length (x :: l)) - 1) 0) as [Hlt|Hge].
  - cbn [length] in Hlt. lia.
  - replace (Z.to_nat (Z.of_nat (length (x :: l)) - 1 - 0 + 1)) with (length (x :: l)) by lia.
    cbn [Z.to_nat drop]. apply firstn_all.
Qed.

(* ===================================================================== *)
(** ** build_redis_url                                                    *)
(* ===================================================================== *)

Example build_redis_url_tests :
  build_redis_url_default (PStr "redis:6379") PNone PNone = "rediss://redis:6379"
  ∧ build_redis_url_default (PStr "redis:6379") (PStr "pass") PNone = "rediss://:pass@redis:6379"
  ∧ build_redis_url_default (PStr "redis:6379") (PStr "pass") (PInt 2) = "rediss://:pass@redis:6379/2"
  ∧ build_redis_url (PStr "redis:6379") (PStr "pass") (PInt 2) (PBool false)
    = "redis://:pass@redis:6379/2".
Proof. repeat split; reflexivity. Qed.

(** C5, as stated, fails: db index 0 is a db index that is given, and the
    URL carries no "/0"; an empty password is given, and the URL carries no
    credential segment. *)
Lemma build_redis_url_db_zero_omitted :
  build_redis_url (PStr "h") (of_opt_str None) (of_opt_int (Some 0)) (PBool true)
    = "rediss://h"
  ∧ build_redis_url_spec "h" None (Some 0) true = "rediss://h/0"
  ∧ build_redis_url (PStr "h") (of_opt_str (Some "")) (of_opt_int None) (PBool true)
    ≠ build_redis_url_spec "h" (Some "") None true.
Proof.
  split; [reflexivity | split; [reflexivity |]].
  intros H. vm_compute in H. discriminate H.
Qed.

(** C5, amended: [build_redis_url] uses scheme "rediss" unless the secure
    flag is false (then "redis"), inserts ":p@" before the host exactly when
    a non-empty password is given, and appends "/d" exactly when a non-zero
    db index is given; [build_redis_url(h, None, None)] is "rediss://h" and
    with a non-empty password p it is "rediss://:p@h". *)
Theorem build_redis_url_given (h : string) (p : option string) (d : option Z) (s : bool) :
  build_redis_url (PStr h) (of_opt_str p) (of_opt_int d) (PBool s)
    = build_redis_url_spec h (given_password p) (given_db d) s
  ∧ build_redis_url_default (PStr h) PNone PNone = "rediss://" +:+ h
  ∧ (∀ c pw, build_redis_url_default (PStr h) (PStr (String c pw)) PNone
             = "rediss://:" +:+ String c pw +:+ "@" +:+ h).
Proof.
  split; [|split; [reflexivity | intros; reflexivity]].
  unfold build_redis_url, build_redis_url_spec, given_password, given_db.
  destruct p as [[|c pw]|], d as [z|]; cbn [of_opt_str of_opt_int truthy scalar_truthy str_nonempty str];
    try destruct (Z.eqb_spec z 0); cbn [negb];
    destruct s; rewrite ?append_assoc, ?append_empty_r; reflexivity.
Qed.

(* ===================================================================== *)
(** ** The adapters                                                       *)
(* ===================================================================== *)

Ltac client_unfold :=
  unfold Client.get, Client.set, Client.hget, Client.hset, Client.hgetall,
    Client.delete, Client.rpush, Client.lrange, Client.expire,
    Client.query, Client.update in *.

Lemma gmap_truthy_nonempty (m : gmap string string) : truthy m = true ↔ m ≠ ∅.
Proof.
  unfold truthy, gmap_truthy. now rewrite negb_true_iff, bool_decide_eq_false.
Qed.

Lemma list_truthy_nonempty (l : list string) : truthy l = true ↔ l ≠ [].
Proof. destruct l; cbn; split; intros; congruence. Qed.

Lemma string_store (k v : string) (s : session) :
  store StringCacheable k v s
  = (Ok tt, Session (<[k := Engine.Entry (Engine.RString v) None]> (s_db s)) (s_log s ++ [SET k v])).
Proof. reflexivity. Qed.

Lemma string_fetch_after_store (k v : string) (s : session) :
  (fetch StringCacheable k (store StringCacheable k v s).2).1 = Ok (Some v).
Proof.
  rewrite string_store. cbn. client_unfold. cbn. unfold Engine.get.
  now rewrite lookup_insert_eq.
Qed.

Lemma dict_string_store_ok (f k v : string) (s : session) :
  (store (DictStringCacheable f) k v s).1 = Ok tt →
  ∃ h t, s_db (store (DictStringCacheable f) k v s).2 !! k
         = Some (Engine.Entry (Engine.RHash h) t) ∧ h !! f = Some v.
Proof.
  cbn. client_unfold. cbn. rewrite (left_id_L ∅ (∪)).
  unfold Engine.hset.
  destruct (bool_decide_reflect (({[f := v]} : gmap string string) = ∅)) as [He|_].
  { now apply map_non_empty_singleton in He. }
  destruct (s_db s !! k) as [[[x|h|l] t]|] eqn:Hk; cbn; try discriminate; intros _.
  - exists ({[f := v]} ∪ h), t. rewrite lookup_insert_eq. split; [reflexivity|].
    apply lookup_union_Some_l, lookup_singleton_eq.
  - exists {[f := v]}, None. rewrite lookup_insert_eq. split; [reflexivity|].
    apply lookup_singleton_eq.
Qed.

Lemma dict_string_fetch_after_store (f k v : string) (s : session) :
  (store (DictStringCacheable f) k v s).1 = Ok tt →
  (fetch (DictStringCacheable f) k (store (DictStringCacheable f) k v s).2).1 = Ok (Some v).
Proof.
  intros Hok. destruct (dict_string_store_ok f k v s Hok) as (h & t & Hk & Hf).
  cbn [fetch DictStringCacheable]. client_unfold. cbn [fst]. unfold Engine.hget.
  now rewrite Hk, Hf.
Qed.

Lemma dict_store_ok (k : string) (v : DictCacheType) (s : session) :
  (store DictCacheable k v s).1 = Ok tt →
  v ≠ ∅ ∧ ∃ h0 t, Engine.hgetall k (s_db s) = Ok h0
    ∧ s_db (store DictCacheable k v s).2 !! k
      = Some (Engine.Entry (Engine.RHash (v ∪ h0)) t).
Proof.
  cbn [store DictCacheable]. unfold Client.hset.
  replace (bool_decide (is_Some (@None (string * string)))) with false
    by (symmetry; apply bool_decide_eq_false; intros [? ?]; discriminate).
  cbn [negb andb truthy option_truthy].
  destruct (truthy v) eqn:Hv; cbn [negb]; [|discriminate].
  apply gmap_truthy_nonempty in Hv.
  cbn [default]. rewrite (right_id_L ∅ (∪)).
  unfold Client.update, Engine.hset, Engine.hgetall.
  case_bool_decide; [contradiction|].
  destruct (s_db s !! k) as [[[x|h|l] t]|] eqn:Hk; cbn; try discriminate; intros _.
  - split; [assumption|]. exists h, t. now rewrite lookup_insert_eq.
  - split; [assumption|]. exists ∅, None. now rewrite lookup_insert_eq, (right_id_L ∅ (∪)).
Qed.

Lemma dict_fetch_hash (k : string) (h : DictCacheType) t (s : session) :
  s_db s !! k = Some (Engine.Entry (Engine.RHash h) t) →
  (fetch DictCacheable k s).1 = Ok (or_None h).
Proof.
  intros Hk. cbn [fetch DictCacheable]. unfold Client.hgetall, Client.query.
  se_unfold. cbn. unfold Engine.hgetall. now rewrite Hk.
Qed.

Lemma dict_fetch_after_store (k : string) (v : DictCacheType) (s : session) :
  (store DictCacheable k v s).1 = Ok tt →
  ∃ h0, Engine.hgetall k (s_db s) = Ok h0
    ∧ (fetch DictCacheable k (store DictCacheable k v s).2).1 = Ok (Some (v ∪ h0)).
Proof.
  intros Hok. destruct (dict_store_ok k v s Hok) as (Hv & h0 & t & Hh & Hk).
  exists h0. split; [assumption|].
  rewrite (dict_fetch_hash k _ t _ Hk). unfold or_None.
  assert (Hne : v ∪ h0 ≠ ∅) by (intros He; apply map_positive_l in He; contradiction).
  apply gmap_truthy_nonempty in Hne. now rewrite Hne.
Qed.

Lemma list_store (k : string) (v : ListCacheType) (s : session) :
  store ListCacheable k v s
  = Client.rpush k v (Session (delete k (s_db s)) (s_log s ++ [DEL k])).
Proof. reflexivity. Qed.

Lemma list_store_nonempty (k : string) (v : ListCacheType) (s : session) :
  v ≠ [] →
  store ListCacheable k v s
  = (Ok tt, Session (<[k := Engine.Entry (Engine.RList v) None]> (delete k (s_db s)))
                    ((s_log s ++ [DEL k]) ++ [RPUSH k v])).
Proof.
  intros Hv. rewrite list_store. unfold Client.rpush, Client.update, Engine.rpush.
  destruct v as [|x v]; [contradiction|]. cbn [s_db s_log].
  now rewrite lookup_delete_eq.
Qed.

Lemma list_store_empty (k : string) (s : session) :
  store ListCacheable k [] s
  = (Err (Engine.wrong_arity "rpush"),
     Session (delete k (s_db s)) ((s_log s ++ [DEL k]) ++ [RPUSH k []])).
Proof. reflexivity. Qed.

Lemma list_fetch_list (k : string) (l : ListCacheType) t (s : session) :
  s_db s !! k = Some (Engine.Entry (Engine.RList l) t) →
  (fetch ListCacheable k s).1 = Ok (or_None l).
Proof.
  intros Hk. cbn [fetch ListCacheable]. unfold Client.lrange, Client.query.
  se_unfold. cbn. unfold Engine.lrange. now rewrite Hk, slice_all.
Qed.

Lemma list_fetch_after_store (k : string) (v : ListCacheType) (s : session) :
  v ≠ [] →
  (fetch ListCacheable k (store ListCacheable k v s).2).1 = Ok (Some v).
Proof.
  intros Hv. rewrite (list_store_nonempty k v s Hv).
  rewrite (list_fetch_list k v None); [|cbn; apply lookup_insert_eq].
  unfold or_None. apply list_truthy_nonempty in Hv. now rewrite Hv.
Qed.

(** On a key that holds nothing, every adapter fetches the sentinel. *)
Lemma fetch_unset S (a : Cacheable S) (k : string) (s : session) :
  builtin_adapter S a → unset k s → (fetch a k s).1 = Ok None.
Proof.
  unfold unset. intros Ha Hk. destruct Ha; cbn; client_unfold; se_simpl;
    unfold Engine.get, Engine.hget, Engine.hgetall, Engine.lrange; rewrite Hk; reflexivity.
Qed.

(** C3, as stated, fails: an empty list cannot be stored (the push is
    refused after the key has been deleted) and then fetches as the
    sentinel; a hash stored over a hash with other fields fetches as the
    union of both. *)
Lemma roundtrip_counterexample :
  (fetch ListCacheable "k" (store ListCacheable "k" [] fresh_session).2).1 = Ok None
  ∧ (let s := (store DictCacheable "k" {["b" := "2"]} fresh_session).2 in
     (fetch DictCacheable "k" (store DictCacheable "k" {["a" := "1"]} s).2).1
     = Ok (Some {["a" := "1"; "b" := "2"]}))
  ∧ ¬ (∀ S (a : Cacheable S), builtin_adapter S a → roundtrip a).
Proof.
  split; [reflexivity | split; [vm_compute; reflexivity |]].
  intros H. specialize (H _ _ builtin_list "k" [] fresh_session).
  vm_compute in H. discriminate H.
Qed.

(** C3, amended: [store(k, v)] followed by [fetch(k)] returns [v] for the
    string adapter on every state; for the hash-field adapter whenever the
    store succeeds (the key holds no value of another type); for the
    whole-hash adapter whenever the store succeeds, [v] then being merged
    over the fields the key already held, so that [v] itself comes back when
    the key was unset and [v] is not empty; for the whole-list adapter
    whenever [v] is not empty. *)
Theorem roundtrip_when_stored :
  (∀ k v s, (fetch StringCacheable k (store StringCacheable k v s).2).1 = Ok (Some v))
  ∧ (∀ f k v s,
       (store (DictStringCacheable f) k v s).1 = Ok tt →
       (fetch (DictStringCacheable f) k (store (DictStringCacheable f) k v s).2).1
       = Ok (Some v))
  ∧ (∀ k v s,
       (store DictCacheable k v s).1 = Ok tt →
       ∃ h0, Engine.hgetall k (s_db s) = Ok h0
         ∧ (fetch DictCacheable k (store DictCacheable k v s).2).1 = Ok (Some (v ∪ h0)))
  ∧ (∀ k v s,
       v ≠ ∅ → unset k s →
       (fetch DictCacheable k (store DictCacheable k v s).2).1 = Ok (Some v))
  ∧ (∀ k v s,
       v ≠ [] →
       (fetch ListCacheable k (store ListCacheable k v s).2).1 = Ok (Some v)).
Proof.
  split; [exact string_fetch_after_store|].
  split; [exact dict_string_fetch_after_store|].
  split; [exact dict_fetch_after_store|].
  split; [|exact list_fetch_after_store].
  intros k v s Hv Hk. unfold unset in Hk.
  assert (Hok : (store DictCacheable k v s).1 = Ok tt).
  { cbn [store DictCacheable]. unfold Client.hset.
    replace (bool_decide (is_Some (@None (string * string)))) with false
      by (symmetry; apply bool_decide_eq_false; intros [? ?]; discriminate).
    cbn [negb andb truthy option_truthy].
    apply gmap_truthy_nonempty in Hv. rewrite Hv. cbn [negb default].
    rewrite (right_id_L ∅ (∪)). unfold Client.update, Engine.hset.
    apply gmap_truthy_nonempty in Hv.
    case_bool_decide; [contradiction|]. now rewrite Hk. }
  destruct (dict_fetch_after_store k v s Hok) as (h0 & Hh & Hf).
  unfold Engine.hgetall in Hh. rewrite Hk in Hh. injection Hh as <-.
  now rewrite (right_id_L ∅ (∪)) in Hf.
Qed.

Lemma roundtrip_when_stored_witness :
  (fetch (DictStringCacheable "f") "k"
     (store (DictStringCacheable "f") "k" "v" fresh_session).2).1 = Ok (Some "v")
  ∧ (fetch DictCacheable "k" (store DictCacheable "k" {["a" := "1"]} fresh_session).2).1
    = Ok (Some {["a" := "1"]})
  ∧ (fetch ListCacheable "k" (store ListCacheable "k" ["a"; "b"] fresh_session).2).1
    = Ok (Some ["a"; "b"]).
Proof.
  split; [|split].
  - apply (proj1 (proj2 roundtrip_when_stored)). reflexivity.
  - apply (proj1 (proj2 (proj2 (proj2 roundtrip_when_stored)))).
    + intros H. apply (f_equal (lookup "a")) in H. vm_compute in H. discriminate H.
    + reflexivity.
  - apply (proj2 (proj2 (proj2 (proj2 roundtrip_when_stored)))). discriminate.
Defined.

(** C4: for each of the four adapters, [fetch] of a key that holds nothing
    returns the sentinel [None] and never a value, be it empty; and after a
    [store] that succeeded, [fetch] of that key returns a value, never the
    sentinel. *)
Theorem sentinel_means_absent S (a : Cacheable S) (k : string) (s : session) :
  builtin_adapter S a →
  (unset k s → (fetch a k s).1 = Ok None ∧ ∀ v, (fetch a k s).1 ≠ Ok (Some v))
  ∧ (∀ v, (store a k v s).1 = Ok tt →
          ∃ v', (fetch a k (store a k v s).2).1 = Ok (Some v')).
Proof.
  intros Ha. split.
  - intros Hk. rewrite (fetch_unset S a k s Ha Hk). split; [reflexivity | discriminate].
  - intros v Hok. destruct Ha.
    + exists v. apply string_fetch_after_store.
    + exists v. now apply dict_string_fetch_after_store.
    + destruct (dict_fetch_after_store k v s Hok) as (h0 & _ & Hf). eauto.
    + assert (Hv : v ≠ []) by (intros ->; rewrite list_store_empty in Hok; discriminate).
      exists v. now apply list_fetch_after_store.
Qed.

Lemma sentinel_means_absent_witness :
  (fetch ListCacheable "k" fresh_session).1 = Ok None
  ∧ ∃ v', (fetch StringCacheable "k" (store StringCacheable "k" "" fresh_session).2).1
          = Ok (Some v').
Proof.
  split.
  - apply (proj1 (sentinel_means_absent _ ListCacheable "k" fresh_session builtin_list)).
    reflexivity.
  - apply (proj2 (sentinel_means_absent _ StringCacheable "k" fresh_session builtin_string) "").
    reflexivity.
Defined.

(** C7: the whole-list adapter's [store(k, v)] is a delete of [k] followed
    by a push of [v]; after the delete and before the push the key is
    absent; the store completes for every non-empty [v], and once it has
    completed the key holds exactly the elements of [v], in order. *)
Theorem list_store_deletes_then_pushes (k : string) (v : ListCacheType) (s : session) :
  store ListCacheable k v s = Client.rpush k v (Client.delete k s).2
  ∧ unset k (Client.delete k s).2
  ∧ s_log (store ListCacheable k v s).2 = (s_log s ++ [DEL k; RPUSH k v])%list
  ∧ (v ≠ [] → (store ListCacheable k v s).1 = Ok tt)
  ∧ ((store ListCacheable k v s).1 = Ok tt →
     s_db (store ListCacheable k v s).2 !! k = Some (Engine.Entry (Engine.RList v) None)
     ∧ (Client.lrange k 0 (-1) (store ListCacheable k v s).2).1 = Ok v).
Proof.
  split; [reflexivity|].
  split; [apply lookup_delete_eq|].
  split.
  { destruct v as [|x v].
    - rewrite list_store_empty. cbn. now rewrite <- app_assoc.
    - rewrite list_store_nonempty by discriminate. cbn. now rewrite <- app_assoc. }
  split.
  { intros Hv. now rewrite list_store_nonempty. }
  intros Hok.
  assert (Hv : v ≠ []) by (intros ->; rewrite list_store_empty in Hok; discriminate).
  rewrite list_store_nonempty by assumption. cbn [snd s_db].
  split; [apply lookup_insert_eq|].
  unfold Client.lrange, Client.query, Engine.lrange. cbn [fst s_db].
  now rewrite lookup_insert_eq, slice_all.
Qed.

Lemma list_store_deletes_then_pushes_witness :
  (store ListCacheable "k" ["a"; "b"] fresh_session).1 = Ok tt
  ∧ (Client.lrange "k" 0 (-1) (store ListCacheable "k" ["a"; "b"] fresh_session).2).1
    = Ok ["a"; "b"].
Proof.
  pose proof (list_store_deletes_then_pushes "k" ["a"; "b"] fresh_session)
    as (_ & _ & _ & Hok & Hdone).
  split.
  - apply Hok. discriminate.
  - apply Hdone. reflexivity.
Defined.

(* ===================================================================== *)
(** ** The connection holder                                              *)
(* ===================================================================== *)

Lemma get_cache_cached (h : RedisCaching) (w : World) (c : Redis) :
  cache_instances w !! _url h = Some c → get_cache h w = (Ok c, w).
Proof. intros Hc. unfold get_cache, lookup_instance. se_unfold. now rewrite Hc. Qed.

Lemma get_cache_constructs (h : RedisCaching) (w : World) :
  cache_instances w !! _url h = None →
  from_url_ok (cache_cls h) (_url h) = true →
  let c := {| r_id := next_id w; r_cls := cls_name (cache_cls h);
              r_url := _url h; r_kwargs := _cache_kwargs h |} in
  get_cache h w
  = (Ok c, {| cache_instances := <[_url h := c]> (cache_instances w);
              next_id := S (next_id w);
              servers := servers w;
              trace := trace w ++ [EFromUrl (cls_name (cache_cls h)) (_url h)] |}).
Proof.
  intros Hc Hok. unfold from_url_ok in Hok.
  unfold get_cache, lookup_instance, from_url, set_instance.
  se_unfold. rewrite Hc.
  now destruct (from_url_refuses (cache_cls h) (_url h)).
Qed.

Lemma get_cache_refused (h : RedisCaching) (w : World) :
  cache_instances w !! _url h = None →
  from_url_ok (cache_cls h) (_url h) = false →
  ∃ e, get_cache h w = (Err e, w).
Proof.
  intros Hc Hok. unfold from_url_ok in Hok.
  unfold get_cache, lookup_instance, from_url.
  se_unfold. rewrite Hc.
  destruct (from_url_refuses (cache_cls h) (_url h)) as [e|]; [eauto | discriminate].
Qed.

(** The three ways a call of [get_cache] can go. *)
Lemma get_cache_cases (h : RedisCaching) (w : World) :
  (∃ c, cache_instances w !! _url h = Some c ∧ get_cache h w = (Ok c, w))
  ∨ (cache_instances w !! _url h = None
     ∧ from_url_ok (cache_cls h) (_url h) = true
     ∧ get_cache h w
       = (Ok {| r_id := next_id w; r_cls := cls_name (cache_cls h);
                r_url := _url h; r_kwargs := _cache_kwargs h |},
          {| cache_instances :=
               <[_url h := {| r_id := next_id w; r_cls := cls_name (cache_cls h);
                              r_url := _url h; r_kwargs := _cache_kwargs h |}]>
                 (cache_instances w);
             next_id := S (next_id w);
             servers := servers w;
             trace := trace w ++ [EFromUrl (cls_name (cache_cls h)) (_url h)] |}))
  ∨ (cache_instances w !! _url h = None ∧ ∃ e, get_cache h w = (Err e, w)).
Proof.
  destruct (cache_instances w !! _url h) as [c|] eqn:Hc.
  - left. exists c. split; [reflexivity | now apply get_cache_cached].
  - destruct (from_url_ok (cache_cls h) (_url h)) eqn:Hok.
    + right; left. split; [reflexivity|]. split; [reflexivity|].
      now apply get_cache_constructs.
    + right; right. split; [reflexivity | now apply get_cache_refused].
Qed.

Lemma get_cache_registers (h : RedisCaching) (w w' : World) (c : Redis) :
  get_cache h w = (Ok c, w') → cache_instances w' !! _url h = Some c.
Proof.
  intros Hg. destruct (get_cache_cases h w) as [(c0 & Hc & Heq)|[(Hc & _ & Heq)|(_ & e & Heq)]];
    rewrite Heq in Hg; inversion Hg; subst; cbn; [assumption | apply lookup_insert_eq].
Qed.

Lemma get_cache_keeps (h : RedisCaching) (w : World) (u : url) (c : Redis) :
  cache_instances w !! u = Some c → cache_instances (get_cache h w).2 !! u = Some c.
Proof.
  intros Hu. destruct (get_cache_cases h w) as [(c0 & Hc & Heq)|[(Hc & _ & Heq)|(_ & e & Heq)]];
    rewrite Heq; cbn; try assumption.
  rewrite lookup_insert_ne; [assumption|]. intros <-. congruence.
Qed.

Lemma perform_keeps (a : activity) (w : World) (u : url) (c : Redis) :
  cache_instances w !! u = Some c → cache_instances (perform a w).2 !! u = Some c.
Proof.
  intros Hu. destruct a as [h|c0 m|name]; cbn [perform].
  - pose proof (get_cache_keeps h w u c Hu) as Hk.
    unfold mbind, SE_bind, mret, SE_ret.
    destruct (get_cache h w) as [[x|e] w']; exact Hk.
  - unfold on. destruct (m _) as [r s]. exact Hu.
  - exact Hu.
Qed.

Lemma activities_keep (acts : list activity) (w : World) (u : url) (c : Redis) :
  cache_instances w !! u = Some c → cache_instances (activities acts w) !! u = Some c.
Proof.
  revert w. induction acts as [|a acts IH]; intros w Hu; cbn [activities]; [assumption|].
  apply IH. now apply perform_keeps.
Qed.

(** C9: when [get_cache] returns a client for a holder's URL, at most one
    client was constructed by that call (exactly one, built from that URL,
    when none was registered for it), and after whatever the process does
    next ([get_cache] calls by any holders, commands on any client,
    invocations), [get_cache] of every holder configured with the same URL
    returns that same client and leaves the process as it is: no client is
    constructed. *)
Theorem get_cache_memoized (h : RedisCaching) (w w1 : World) (c : Redis) :
  get_cache h w = (Ok c, w1) →
  (next_id w1 ≤ S (next_id w))%nat
  ∧ (cache_instances w !! _url h = None →
     next_id w1 = S (next_id w) ∧ r_url c = _url h ∧ r_id c = next_id w)
  ∧ ∀ (acts : list activity) (h' : RedisCaching),
      _url h' = _url h →
      get_cache h' (activities acts w1) = (Ok c, activities acts w1).
Proof.
  intros Hg. split; [|split].
  - destruct (get_cache_cases h w) as [(c0 & Hc & Heq)|[(Hc & _ & Heq)|(_ & e & Heq)]];
      rewrite Heq in Hg; inversion Hg; subst; cbn; lia.
  - intros Hnone.
    destruct (get_cache_cases h w) as [(c0 & Hc & Heq)|[(Hc & _ & Heq)|(_ & e & Heq)]];
      rewrite Heq in Hg; inversion Hg; subst; cbn; [congruence | auto].
  - intros acts h' Hu. apply get_cache_cached. rewrite Hu.
    apply activities_keep. now apply (get_cache_registers h w).
Qed.

Lemma get_cache_memoized_witness :
  let h := RedisCaching_new FakeRedis None ∅ in
  let h' := RedisCaching_new Redis_cls None {[ "socket_timeout" := PInt 1 ]} in
  let other := RedisCaching_new FakeRedis (Some "redis://elsewhere") ∅ in
  let c := {| r_id := 0; r_cls := "FakeRedis"; r_url := None;
              r_kwargs := _default_cache_kwargs |} in
  let w1 := (get_cache h fresh_world).2 in
  let acts := [GetCache other; Commands c (Client.set "k" "v"); GetCache h;
               Invoked "f"] in
  get_cache h fresh_world = (Ok c, w1)
  ∧ get_cache h' (activities acts w1) = (Ok c, activities acts w1).
Proof.
  intros h h' other c w1 acts.
  assert (Hg : get_cache h fresh_world = (Ok c, w1)) by (vm_compute; reflexivity).
  split; [exact Hg|].
  apply (proj2 (proj2 (get_cache_memoized h fresh_world w1 c Hg)) acts h').
  reflexivity.
Defined.

(* ===================================================================== *)
(** ** Running client computations in the process                         *)
(* ===================================================================== *)

Lemma on_eq {A} (c : Redis) (m : R A) (w : World) :
  on c m w
  = ((m (Session (server_of w c) [])).1,
     {| cache_instances := cache_instances w;
        next_id := next_id w;
        servers := <[r_url c := s_db (m (Session (server_of w c) [])).2]> (servers w);
        trace := trace w ++ (ECmd (r_id c) <$> s_log (m (Session (server_of w c) [])).2) |}).
Proof. unfold on. now destruct (m (Session (server_of w c) [])). Qed.

Lemma on_instances {A} (c : Redis) (m : R A) (w : World) :
  cache_instances (on c m w).2 = cache_instances w.
Proof. now rewrite on_eq. Qed.

Lemma on_server {A} (c : Redis) (m : R A) (w : World) :
  server_of (on c m w).2 c = s_db (m (Session (server_of w c) [])).2.
Proof. rewrite on_eq. unfold server_of at 1. cbn. now rewrite lookup_insert_eq. Qed.

Lemma calls_app (name : string) (t1 t2 : list event) :
  calls name (t1 ++ t2) = (calls name t1 + calls name t2)%nat.
Proof. unfold calls. now rewrite filter_app, length_app. Qed.

Lemma calls_cmds (name : string) (i : nat) (l : list command) :
  calls name (ECmd i <$> l) = 0%nat.
Proof. induction l as [|x l IH]; [reflexivity | exact IH]. Qed.

Lemma writes_app (t1 t2 : list event) :
  writes (t1 ++ t2) = (writes t1 + writes t2)%nat.
Proof. unfold writes. now rewrite filter_app, length_app. Qed.

Lemma calls_from_url (name cls : string) (u : url) : calls name [EFromUrl cls u] = 0%nat.
Proof. reflexivity. Qed.

Lemma calls_on {A} (name : string) (c : Redis) (m : R A) (w : World) :
  calls name (trace (on c m w).2) = calls name (trace w).
Proof. rewrite on_eq. cbn [snd trace]. rewrite calls_app, calls_cmds. lia. Qed.

Lemma calls_get_cache (name : string) (h : RedisCaching) (w : World) :
  calls name (trace (get_cache h w).2) = calls name (trace w).
Proof.
  destruct (get_cache_cases h w) as [(c0 & Hc & Heq)|[(Hc & _ & Heq)|(_ & e & Heq)]];
    rewrite Heq; cbn [snd trace]; [reflexivity | | reflexivity].
  rewrite calls_app, calls_from_url. lia.
Qed.

(* ===================================================================== *)
(** ** The memoizing wrapper                                              *)
(* ===================================================================== *)

Lemma expire_ok (k : string) (t : timeval) (s : session) :
  (Client.expire k t s).1 = Ok tt.
Proof.
  unfold Client.expire, Client.update, Engine.expire.
  destruct (s_db s !! k) as [[v t0]|]; [destruct (to_seconds t <=? 0)|]; reflexivity.
Qed.

Lemma expire_log (k : string) (t : timeval) (s : session) :
  s_log (Client.expire k t s).2 = (s_log s ++ [EXPIRE k (to_seconds t)])%list.
Proof.
  unfold Client.expire, Client.update.
  now destruct (Engine.expire k (to_seconds t) (s_db s)).
Qed.

Lemma apply_ttl_ok (c : Redis) (k : string) (t : option timeval) (w : World) :
  (apply_ttl c k t w).1 = Ok tt.
Proof.
  unfold apply_ttl. destruct t as [t|]; [destruct (truthy t)|]; try reflexivity.
  rewrite on_eq. cbn [fst]. apply expire_ok.
Qed.

Lemma calls_apply_ttl (name : string) (c : Redis) (k : string) (t : option timeval) (w : World) :
  calls name (trace (apply_ttl c k t w).2) = calls name (trace w).
Proof.
  unfold apply_ttl. destruct t as [t|]; [destruct (truthy t)|]; try reflexivity.
  apply calls_on.
Qed.

Section WrapperProperties.
Context {Obj FetchType StoreType : Type}.
Context `{!PyObject Obj, !AsObject FetchType Obj}.
Implicit Types (self : CacheValueWrapper Obj FetchType StoreType).
Implicit Types (args : list Obj) (kwargs : kwargs_t Obj).

Lemma call_hit self args kwargs (w w1 w2 : World) (k : string) (c : Redis) (v : FetchType) :
  _calculate_cache_key self args kwargs = Ok k →
  get_cache (_caching self) w = (Ok c, w1) →
  on c (get_value (_cache_element self) k) w1 = (Ok (Some v), w2) →
  __call__ self args kwargs w = (Ok v, w2).
Proof.
  intros Hk Hc Hget. unfold __call__. se_unfold. now rewrite Hk, Hc, Hget.
Qed.

Lemma call_miss self args kwargs (w w1 w2 w3 : World) (k : string) (c : Redis)
    (v : FetchType) (t : option timeval) :
  _calculate_cache_key self args kwargs = Ok k →
  get_cache (_caching self) w = (Ok c, w1) →
  on c (get_value (_cache_element self) k) w1 = (Ok None, w2) →
  body (_func self) args kwargs = Ok v →
  on c (set_value (_cache_element self) k v) (log (ECall (__name__ (_func self))) w2).2
    = (Ok tt, w3) →
  _calculate_expire_in self v args kwargs = Ok t →
  __call__ self args kwargs w = (Ok v, (apply_ttl c k t w3).2).
Proof.
  intros Hk Hc Hget Hbody Hset Httl.
  assert (Hc2 : get_cache (_caching self) w2 = (Ok c, w2)).
  { apply get_cache_cached. replace w2 with (on c (get_value (_cache_element self) k) w1).2
      by now rewrite Hget.
    rewrite on_instances. now apply (get_cache_registers _ w). }
  unfold __call__. se_unfold. rewrite Hk, Hc, Hget, Hc2.
  unfold invoke. se_unfold.
  change (log (ECall (__name__ (_func self))) w2)
    with (Ok tt, (log (ECall (__name__ (_func self))) w2).2).
  rewrite Hbody, Hset, Httl.
  pose proof (apply_ttl_ok c k t w3) as Hok. unfold apply_ttl in *.
  destruct t as [t|]; [destruct (truthy t)|]; try reflexivity.
  destruct (on c (Client.expire k t) w3) as [r w4]. cbn in Hok. now subst r.
Qed.

End WrapperProperties.

(* ===================================================================== *)
(** ** A stored value is found again                                      *)
(* ===================================================================== *)

(** Fetching changes nothing in the database and sends one command, which
    is not a write. *)
Lemma fetch_reads_only S (a : Cacheable S) (k : string) (s : session) :
  builtin_adapter S a →
  s_db (fetch a k s).2 = s_db s
  ∧ ∃ cmd, s_log (fetch a k s).2 = (s_log s ++ [cmd])%list
           ∧ ∀ i, is_write (ECmd i cmd) = false.
Proof.
  intros Ha. destruct Ha; cbn [fetch StringCacheable DictStringCacheable DictCacheable ListCacheable];
    client_unfold; se_unfold; cbn [fst snd s_db s_log].
  - split; [reflexivity|]. eexists; split; [reflexivity | reflexivity].
  - split; [reflexivity|]. eexists; split; [reflexivity | reflexivity].
  - destruct (Engine.hgetall k (s_db s)); cbn; (split; [reflexivity|]);
      eexists; (split; [reflexivity | reflexivity]).
  - destruct (Engine.lrange k 0 (-1) (s_db s)); cbn; (split; [reflexivity|]);
      eexists; (split; [reflexivity | reflexivity]).
Qed.

(** What is fetched under a key depends on the value the key holds only,
    not on its time-to-live, the other keys, or the commands sent so far. *)
Lemma fetch_value_only S (a : Cacheable S) (k : string) (s s' : session) :
  builtin_adapter S a →
  Engine.e_val <$> (s_db s !! k) = Engine.e_val <$> (s_db s' !! k) →
  (fetch a k s).1 = (fetch a k s').1.
Proof.
  intros Ha Hv. destruct Ha; cbn [fetch StringCacheable DictStringCacheable DictCacheable ListCacheable];
    client_unfold; se_unfold; cbn [fst snd s_db s_log];
    unfold Engine.get, Engine.hget, Engine.hgetall, Engine.lrange;
    destruct (s_db s !! k) as [[x t]|], (s_db s' !! k) as [[x' t']|];
    cbn in Hv; try discriminate; try reflexivity;
    injection Hv as <-; destruct x; reflexivity.
Qed.

(** After a miss, a store that succeeds is found by the next fetch. *)
Lemma stored_then_found S (a : Cacheable S) (k : string) (v : S) (s : session) :
  builtin_adapter S a →
  (fetch a k s).1 = Ok None →
  (store a k v s).1 = Ok tt →
  (fetch a k (store a k v s).2).1 = Ok (Some v).
Proof.
  intros Ha Hmiss Hok. destruct Ha.
  - apply string_fetch_after_store.
  - now apply dict_string_fetch_after_store.
  - destruct (dict_fetch_after_store k v s Hok) as (h0 & Hh & Hf). rewrite Hf.
    revert Hmiss. cbn [fetch DictCacheable]. unfold Client.hgetall, Client.query.
    se_unfold. cbn [fst snd s_db]. rewrite Hh. cbn. unfold or_None.
    destruct (truthy h0) eqn:Ht; [discriminate|]. intros _.
    assert (h0 = ∅) as ->.
    { destruct (decide (h0 = ∅)) as [|Hne]; [assumption|].
      apply gmap_truthy_nonempty in Hne. congruence. }
    now rewrite (right_id_L ∅ (∪)).
  - assert (Hv : v ≠ []) by (intros ->; rewrite list_store_empty in Hok; discriminate).
    now apply list_fetch_after_store.
Qed.

(** A time-to-live of at least a second leaves the value under the key. *)
Lemma expire_keeps_value (k : string) (t : timeval) (s : session) :
  0 < to_seconds t →
  Engine.e_val <$> (s_db (Client.expire k t s).2 !! k) = Engine.e_val <$> (s_db s !! k).
Proof.
  intros Ht. unfold Client.expire, Client.update, Engine.expire.
  destruct (s_db s !! k) as [[v t0]|] eqn:Hk.
  - destruct (Z.leb_spec (to_seconds t) 0); [lia|]. cbn. now rewrite lookup_insert_eq.
  - cbn. now rewrite Hk.
Qed.

Section ElementLemmas.
Context {FetchType StoreType : Type}.
Implicit Types (e : CacheElement FetchType StoreType).

Lemma get_value_session e (k : string) (s : session) :
  (get_value e k s).2 = (fetch (cacheable e) k s).2.
Proof.
  unfold get_value. se_unfold.
  destruct (fetch (cacheable e) k s) as [[[x|]|err] s']; cbn; try reflexivity.
  now destruct (load e x).
Qed.

Lemma get_value_none e (k : string) (s : session) :
  (get_value e k s).1 = Ok None → (fetch (cacheable e) k s).1 = Ok None.
Proof.
  unfold get_value. se_unfold.
  destruct (fetch (cacheable e) k s) as [[[x|]|err] s']; cbn; try discriminate; try reflexivity.
  now destruct (load e x).
Qed.

Lemma get_value_some e (k : string) (s : session) (sv : StoreType) (v : FetchType) :
  (fetch (cacheable e) k s).1 = Ok (Some sv) → load e sv = Ok v →
  (get_value e k s).1 = Ok (Some v).
Proof.
  unfold get_value. se_unfold.
  destruct (fetch (cacheable e) k s) as [[[x|]|err] s']; cbn; try discriminate.
  intros [= ->] ->. reflexivity.
Qed.

Lemma set_value_dumped e (k : string) (v : FetchType) (sv : StoreType) (s : session) :
  dump e v = Ok sv → set_value e k v s = store (cacheable e) k sv s.
Proof. intros Hd. unfold set_value. se_unfold. now rewrite Hd. Qed.

End ElementLemmas.

Lemma apply_ttl_instances (c : Redis) (k : string) (t : option timeval) (w : World) :
  cache_instances (apply_ttl c k t w).2 = cache_instances w.
Proof.
  unfold apply_ttl. destruct t as [t|]; [destruct (truthy t)|]; try reflexivity.
  apply on_instances.
Qed.

Lemma apply_ttl_keeps_value (c : Redis) (k : string) (t : option timeval) (w : World) :
  ttl_keeps t →
  Engine.e_val <$> (server_of (apply_ttl c k t w).2 c !! k)
  = Engine.e_val <$> (server_of w c !! k).
Proof.
  unfold apply_ttl, ttl_keeps. intros Ht.
  destruct t as [t|]; [destruct (truthy t)|]; try reflexivity.
  rewrite on_server. now apply (expire_keeps_value k t (Session (server_of w c) [])), Ht.
Qed.

Section SecondCall.
Context {Obj FetchType StoreType : Type}.
Context `{!PyObject Obj, !AsObject FetchType Obj}.
Implicit Types (self : CacheValueWrapper Obj FetchType StoreType).
Implicit Types (args : list Obj) (kwargs : kwargs_t Obj).

(** The call that follows a call that missed, stored and returned: it
    finds the stored value, so the wrapped function is not invoked and
    nothing is written. *)
Lemma call_after_miss self args' kwargs' (w w1 w2 w3 : World) (k : string) (c : Redis)
    (v v' : FetchType) (sv : StoreType) (t : option timeval) :
  builtin_adapter StoreType (cacheable (_cache_element self)) →
  get_cache (_caching self) w = (Ok c, w1) →
  on c (get_value (_cache_element self) k) w1 = (Ok None, w2) →
  on c (set_value (_cache_element self) k v) (log (ECall (__name__ (_func self))) w2).2
    = (Ok tt, w3) →
  dump (_cache_element self) v = Ok sv →
  load (_cache_element self) sv = Ok v' →
  ttl_keeps t →
  _calculate_cache_key self args' kwargs' = Ok k →
  let w4 := (apply_ttl c k t w3).2 in
  ∃ w5, __call__ self args' kwargs' w4 = (Ok v', w5)
        ∧ calls (__name__ (_func self)) (trace w5) = calls (__name__ (_func self)) (trace w4)
        ∧ writes (trace w5) = writes (trace w4).
Proof.
  intros Ha Hc Hget Hset Hdump Hload Hkeeps Hk w4.
  set (e := _cache_element self) in *. set (a := cacheable e) in *.
  set (S0 := Session (server_of w1 c) []).
  (* the first call: a miss on [S0], then a store on [S0] *)
  rewrite on_eq in Hget. injection Hget as Hmiss Hw2. fold S0 in Hmiss, Hw2.
  apply get_value_none in Hmiss. fold a in Hmiss.
  assert (Hs2 : server_of w2 c = server_of w1 c).
  { subst w2. unfold server_of at 1. cbn [servers]. rewrite lookup_insert_eq. cbn [default].
    rewrite get_value_session. apply (fetch_reads_only _ a k S0 Ha). }
  assert (Hi2 : cache_instances w2 = cache_instances w1) by now subst w2.
  assert (Hs2' : server_of (log (ECall (__name__ (_func self))) w2).2 c = server_of w1 c)
    by exact Hs2.
  assert (Hi2' : cache_instances (log (ECall (__name__ (_func self))) w2).2
                 = cache_instances w1) by exact Hi2.
  revert Hset Hs2' Hi2'. generalize (log (ECall (__name__ (_func self))) w2).2.
  intros w2' Hset Hs2' Hi2'.
  rewrite on_eq in Hset. injection Hset as Hstored Hw3.
  rewrite Hs2' in Hstored, Hw3. fold S0 in Hstored, Hw3.
  rewrite (set_value_dumped e k v sv S0 Hdump) in Hstored, Hw3. fold a in Hstored, Hw3.
  assert (Hs3 : server_of w3 c = s_db (store a k sv S0).2).
  { subst w3. unfold server_of at 1. cbn [servers]. now rewrite lookup_insert_eq. }
  assert (Hi3 : cache_instances w3 = cache_instances w1) by (subst w3; exact Hi2').
  pose proof (stored_then_found _ a k sv S0 Ha Hmiss Hstored) as Hfound.
  (* the world the second call starts in *)
  assert (Hc4 : get_cache (_caching self) w4 = (Ok c, w4)).
  { apply get_cache_cached. subst w4. rewrite apply_ttl_instances, Hi3.
    now apply (get_cache_registers _ w). }
  assert (Hfetch4 : (fetch a k (Session (server_of w4 c) [])).1 = Ok (Some sv)).
  { rewrite <- Hfound. apply fetch_value_only; [assumption|]. cbn [s_db].
    subst w4. rewrite apply_ttl_keeps_value by assumption. now rewrite Hs3. }
  pose proof (on_eq c (get_value e k) w4) as Hon.
  rewrite (get_value_some e k _ sv v' Hfetch4 Hload) in Hon.
  eexists. split; [exact (call_hit self args' kwargs' w4 w4 _ k c v' Hk Hc4 Hon) | split].
  - cbn [trace]. rewrite calls_app, calls_cmds. lia.
  - cbn [trace]. rewrite writes_app, get_value_session. fold a.
    destruct (fetch_reads_only _ a k (Session (server_of w4 c) []) Ha) as (_ & cmd & -> & Hw).
    cbn [s_log app fmap list_fmap]. unfold writes at 2. cbn [filter list_filter].
    rewrite decide_False; [cbn; lia|]. rewrite Hw. discriminate.
Qed.

End SecondCall.

Lemma store_key_exists S (a : Cacheable S) (k : string) (v : S) (s : session) :
  builtin_adapter S a →
  (store a k v s).1 = Ok tt →
  is_Some (s_db (store a k v s).2 !! k).
Proof.
  intros Ha Hok. destruct Ha.
  - rewrite string_store. cbn. rewrite lookup_insert_eq. eauto.
  - destruct (dict_string_store_ok _ k v s Hok) as (h & t & -> & _). eauto.
  - destruct (dict_store_ok k v s Hok) as (_ & h0 & t & _ & ->). eauto.
  - assert (Hv : v ≠ []) by (intros ->; rewrite list_store_empty in Hok; discriminate).
    rewrite list_store_nonempty by assumption. cbn. rewrite lookup_insert_eq. eauto.
Qed.

Lemma ttl_after_expire (k : string) (t : timeval) (s : session) :
  0 < to_seconds t → is_Some (s_db s !! k) →
  Engine.ttl k (s_db (Client.expire k t s).2) = to_seconds t.
Proof.
  intros Ht [[v t0] Hk]. unfold Client.expire, Client.update, Engine.expire, Engine.ttl.
  rewrite Hk. destruct (Z.leb_spec (to_seconds t) 0); [lia|]. cbn.
  now rewrite lookup_insert_eq.
Qed.

(** Traces only grow. *)
Lemma extends_refl (w : World) : extends w w.
Proof. exists []. now rewrite app_nil_r. Qed.

Lemma extends_trans (w1 w2 w3 : World) : extends w1 w2 → extends w2 w3 → extends w1 w3.
Proof. intros [t1 H1] [t2 H2]. exists (t1 ++ t2)%list. now rewrite H2, H1, app_assoc. Qed.

Lemma extends_on {A} (c : Redis) (m : R A) (w : World) : extends w (on c m w).2.
Proof. rewrite on_eq. eexists. reflexivity. Qed.

Lemma extends_log (e : event) (w : World) : extends w (log e w).2.
Proof. eexists. reflexivity. Qed.

Lemma extends_get_cache (h : RedisCaching) (w : World) : extends w (get_cache h w).2.
Proof.
  destruct (get_cache_cases h w) as [(c0 & Hc & Heq)|[(Hc & _ & Heq)|(_ & e & Heq)]];
    rewrite Heq; cbn [snd]; [apply extends_refl | eexists; reflexivity | apply extends_refl].
Qed.

Lemma extends_apply_ttl (c : Redis) (k : string) (t : option timeval) (w : World) :
  extends w (apply_ttl c k t w).2.
Proof.
  unfold apply_ttl. destruct t as [t|]; [destruct (truthy t)|]; try apply extends_refl.
  apply extends_on.
Qed.

Section WrapperTheorems.
Context {Obj FetchType StoreType : Type}.
Context `{!PyObject Obj, !AsObject FetchType Obj}.
Implicit Types (self : CacheValueWrapper Obj FetchType StoreType).
Implicit Types (args : list Obj) (kwargs : kwargs_t Obj).

Lemma calls_after_miss self (w w1 w2 w3 : World) (k : string) (c : Redis)
    (v : FetchType) (t : option timeval) :
  get_cache (_caching self) w = (Ok c, w1) →
  on c (get_value (_cache_element self) k) w1 = (Ok None, w2) →
  on c (set_value (_cache_element self) k v) (log (ECall (__name__ (_func self))) w2).2
    = (Ok tt, w3) →
  calls (__name__ (_func self)) (trace (apply_ttl c k t w3).2)
  = S (calls (__name__ (_func self)) (trace w)).
Proof.
  intros Hc Hget Hset. rewrite calls_apply_ttl.
  replace w3 with (on c (set_value (_cache_element self) k v)
                     (log (ECall (__name__ (_func self))) w2).2).2 by now rewrite Hset.
  rewrite calls_on. cbn [log snd trace]. rewrite calls_app.
  replace w2 with (on c (get_value (_cache_element self) k) w1).2 by now rewrite Hget.
  rewrite calls_on.
  replace w1 with (get_cache (_caching self) w).2 by now rewrite Hc.
  rewrite calls_get_cache. unfold calls at 2. cbn [filter list_filter is_call].
  rewrite decide_True; [cbn; lia|]. now apply bool_decide_eq_true.
Qed.

Lemma stored_key_exists self (w1 w2 w3 : World) (k : string) (c : Redis)
    (v : FetchType) (sv : StoreType) :
  builtin_adapter StoreType (cacheable (_cache_element self)) →
  on c (get_value (_cache_element self) k) w1 = (Ok None, w2) →
  on c (set_value (_cache_element self) k v) (log (ECall (__name__ (_func self))) w2).2
    = (Ok tt, w3) →
  dump (_cache_element self) v = Ok sv →
  is_Some (server_of w3 c !! k).
Proof.
  intros Ha Hget Hset Hdump.
  replace w3 with (on c (set_value (_cache_element self) k v)
                     (log (ECall (__name__ (_func self))) w2).2).2 by now rewrite Hset.
  rewrite on_server. rewrite (set_value_dumped _ k v sv _ Hdump).
  apply store_key_exists; [assumption|].
  rewrite <- (set_value_dumped _ k v sv _ Hdump).
  rewrite on_eq in Hset. now injection Hset as Hstored _.
Qed.

(** X23: a call whose fetch is a hit returns the deserialized cached
    value, does not invoke the wrapped function and ends in the world the
    fetch left; a call whose fetch is a miss, whose function returns, whose
    result is stored and whose time-to-live is computed, invokes the
    wrapped function exactly once, stores its result under the derived
    key, applies the time-to-live and returns the result; and the next
    call with the same derived key finds what was stored: no second
    invocation, nothing written. *)
Theorem memoized_call self args kwargs (w w1 : World) (k : string) (c : Redis) :
  _calculate_cache_key self args kwargs = Ok k →
  get_cache (_caching self) w = (Ok c, w1) →
  (∀ v w2,
     on c (get_value (_cache_element self) k) w1 = (Ok (Some v), w2) →
     __call__ self args kwargs w = (Ok v, w2)
     ∧ calls (__name__ (_func self)) (trace w2) = calls (__name__ (_func self)) (trace w))
  ∧ (∀ v w2 w3 t,
     on c (get_value (_cache_element self) k) w1 = (Ok None, w2) →
     body (_func self) args kwargs = Ok v →
     on c (set_value (_cache_element self) k v) (log (ECall (__name__ (_func self))) w2).2
       = (Ok tt, w3) →
     _calculate_expire_in self v args kwargs = Ok t →
     __call__ self args kwargs w = (Ok v, (apply_ttl c k t w3).2)
     ∧ calls (__name__ (_func self)) (trace (apply_ttl c k t w3).2)
       = S (calls (__name__ (_func self)) (trace w))
     ∧ ∀ sv v' args' kwargs',
         builtin_adapter StoreType (cacheable (_cache_element self)) →
         dump (_cache_element self) v = Ok sv →
         load (_cache_element self) sv = Ok v' →
         ttl_keeps t →
         _calculate_cache_key self args' kwargs' = Ok k →
         ∃ w5, __call__ self args' kwargs' (apply_ttl c k t w3).2 = (Ok v', w5)
               ∧ calls (__name__ (_func self)) (trace w5)
                 = calls (__name__ (_func self)) (trace (apply_ttl c k t w3).2)
               ∧ writes (trace w5) = writes (trace (apply_ttl c k t w3).2)).
Proof.
  intros Hk Hc. split.
  - intros v w2 Hget. split; [now apply (call_hit self args kwargs w w1 w2 k c)|].
    replace w2 with (on c (get_value (_cache_element self) k) w1).2 by now rewrite Hget.
    rewrite calls_on.
    replace w1 with (get_cache (_caching self) w).2 by now rewrite Hc.
    apply calls_get_cache.
  - intros v w2 w3 t Hget Hbody Hset Httl. split; [|split].
    + now apply (call_miss self args kwargs w w1 w2 w3 k c).
    + now apply (calls_after_miss self w w1 w2 w3 k c v).
    + intros sv v' args' kwargs' Ha Hdump Hload Hkeeps Hk'.
      now apply (call_after_miss self args' kwargs' w w1 w2 w3 k c v v' sv t).
Qed.

(** C6, amended: when the time-to-live computed for a call that missed is
    truthy, the wrapper sends [expire] for the key with it right after the
    store and returns; with one of the package's adapters the key is there,
    so for a time-to-live of at least a second the engine then reports it
    as the key's remaining time.  A fixed [expire_in] is used as it is; an
    [expire_in] function is called with the call's positional arguments
    and with its keyword arguments followed by [value], the result of the
    wrapped function, and what it returns is used. *)
Theorem ttl_after_first_store self args kwargs (w w1 w2 w3 : World) (k : string)
    (c : Redis) (v : FetchType) (sv : StoreType) (t : timeval) :
  _calculate_cache_key self args kwargs = Ok k →
  get_cache (_caching self) w = (Ok c, w1) →
  on c (get_value (_cache_element self) k) w1 = (Ok None, w2) →
  body (_func self) args kwargs = Ok v →
  on c (set_value (_cache_element self) k v) (log (ECall (__name__ (_func self))) w2).2
    = (Ok tt, w3) →
  _calculate_expire_in self v args kwargs = Ok (Some t) →
  truthy t = true →
  __call__ self args kwargs w = (Ok v, (on c (Client.expire k t) w3).2)
  ∧ trace (on c (Client.expire k t) w3).2
    = (trace w3 ++ [ECmd (r_id c) (EXPIRE k (to_seconds t))])%list
  ∧ (builtin_adapter StoreType (cacheable (_cache_element self)) →
     dump (_cache_element self) v = Ok sv →
     0 < to_seconds t →
     Engine.ttl k (server_of (on c (Client.expire k t) w3).2 c) = to_seconds t)
  ∧ (∀ t0, _expire_in self = Fixed t0 → t0 = Some t)
  ∧ (∀ f, _expire_in self = Computed f →
          f args (kwargs ++ [("value", as_obj v)])%list = Ok (Some t)).
Proof.
  intros Hk Hc Hget Hbody Hset Httl Htruthy. split; [|split; [|split; [|split]]].
  - rewrite (call_miss self args kwargs w w1 w2 w3 k c v (Some t) Hk Hc Hget Hbody Hset Httl).
    unfold apply_ttl. now rewrite Htruthy.
  - rewrite on_eq. cbn [snd trace]. now rewrite expire_log.
  - intros Ha Hdump Hpos. rewrite on_server.
    apply (ttl_after_expire k t (Session (server_of w3 c) [])); [assumption|].
    now apply (stored_key_exists self w1 w2 w3 k c v sv).
  - intros t0 Hfixed. unfold _calculate_expire_in in Httl. rewrite Hfixed in Httl.
    destruct (kwargs_get "value" kwargs); [discriminate Httl|]. now injection Httl.
  - intros f Hf. unfold _calculate_expire_in in Httl. rewrite Hf in Httl.
    destruct (kwargs_get "value" kwargs) eqn:Hnone; [discriminate Httl|].
    now rewrite (kwargs_set_new "value" (as_obj v) kwargs Hnone) in Httl.
Qed.

End WrapperTheorems.

Section ReadThrough.
Context {Obj FetchType StoreType : Type}.
Context `{!PyObject Obj, !AsObject FetchType Obj}.
Implicit Types (self : CacheValueWrapper Obj FetchType StoreType).
Implicit Types (args : list Obj) (kwargs : kwargs_t Obj).

Lemma call_extends_fetch self args kwargs (w w1 : World) (k : string) (c : Redis) :
  _calculate_cache_key self args kwargs = Ok k →
  get_cache (_caching self) w = (Ok c, w1) →
  extends (on c (get_value (_cache_element self) k) w1).2 (__call__ self args kwargs w).2.
Proof.
  intros Hk Hc. unfold __call__. se_unfold. rewrite Hk, Hc.
  destruct (on c (get_value (_cache_element self) k) w1) as [[[v|]|err] w2];
    cbn [snd]; try apply extends_refl.
  pose proof (extends_get_cache (_caching self) w2) as H1.
  destruct (get_cache (_caching self) w2) as [[c2|e2] w2a]; cbn [snd] in *; [|exact H1].
  apply (extends_trans _ _ _ H1). clear H1.
  unfold invoke. se_unfold.
  pose proof (extends_log (ECall (__name__ (_func self))) w2a) as H2.
  destruct (log (ECall (__name__ (_func self))) w2a) as [[[]|e3] w2b]; cbn [snd] in *;
    [|exact H2].
  apply (extends_trans _ _ _ H2). clear H2.
  destruct (body (_func self) args kwargs) as [v|e4]; [|apply extends_refl].
  pose proof (extends_on c2 (set_value (_cache_element self) k v) w2b) as H3.
  destruct (on c2 (set_value (_cache_element self) k v) w2b) as [[[]|e5] w3]; cbn [snd] in *;
    [|exact H3].
  apply (extends_trans _ _ _ H3). clear H3.
  destruct (_calculate_expire_in self v args kwargs) as [t|e6]; [|apply extends_refl].
  pose proof (extends_apply_ttl c2 k t w3) as H4. unfold apply_ttl in H4. se_unfold.
  destruct t as [t|]; [destruct (truthy t)|]; cbn [snd] in *; try apply extends_refl.
  destruct (on c2 (Client.expire k t) w3) as [[[]|e7] w4]; exact H4.
Qed.

(** C8: once the key is derived and the client obtained, a call begins
    with the adapter's fetch of the derived key, and whatever value the
    key holds at that moment, however it came to be there, is what the
    call returns after deserialization: nothing is remembered between
    calls. *)
Theorem call_reads_the_cache self args kwargs (w w1 : World) (k : string) (c : Redis) :
  _calculate_cache_key self args kwargs = Ok k →
  get_cache (_caching self) w = (Ok c, w1) →
  (∃ rest,
     trace (__call__ self args kwargs w).2
     = (trace w1
        ++ (ECmd (r_id c)
              <$> s_log (fetch (cacheable (_cache_element self)) k
                           (Session (server_of w1 c) [])).2)
        ++ rest)%list)
  ∧ (∀ sv v,
       (fetch (cacheable (_cache_element self)) k (Session (server_of w1 c) [])).1
         = Ok (Some sv) →
       load (_cache_element self) sv = Ok v →
       (__call__ self args kwargs w).1 = Ok v
       ∧ calls (__name__ (_func self)) (trace (__call__ self args kwargs w).2)
         = calls (__name__ (_func self)) (trace w)).
Proof.
  intros Hk Hc. split.
  - destruct (call_extends_fetch self args kwargs w w1 k c Hk Hc) as [rest Hrest].
    exists rest. rewrite Hrest, on_eq. cbn [snd trace].
    now rewrite get_value_session, app_assoc.
  - intros sv v Hfetch Hload.
    pose proof (on_eq c (get_value (_cache_element self) k) w1) as Hon.
    rewrite (get_value_some _ k _ sv v Hfetch Hload) in Hon.
    rewrite (call_hit self args kwargs w w1 _ k c v Hk Hc Hon). cbn [fst snd trace].
    split; [reflexivity|]. rewrite calls_app, calls_cmds.
    replace w1 with (get_cache (_caching self) w).2 by now rewrite Hc.
    rewrite calls_get_cache. lia.
Qed.


End ReadThrough.

(* ===================================================================== *)
(** ** The configuration error                                            *)
(* ===================================================================== *)

(** C2, as stated, fails on the current wrapper: without a key function
    the call succeeds and memoizes under the default key (this is
    [test_get_cache_key_not_defined]). *)
Lemma no_key_function_no_error :
  let r := __call__ unkeyed_wrapper [PStr "123"; PStr "abc"] [] fresh_world in
  r.1 = Ok "string-value"
  ∧ Engine.contains "redis_decorators:decorated_function:123:abc:{}"
      (server_of r.2 test_client) = true.
Proof. split; vm_compute; reflexivity. Qed.

(** C2, amended: in the wrapper of the old package ([redis_utils]), a call
    made while no key function is configured raises [ValueError] before
    anything else happens, and this is the only error that wrapper raises
    itself: with a key function configured, an error of a call is the error
    of the key function, of getting the value (fetch or load), of the
    wrapped function, or of setting the value (dump or store).  The current
    wrapper raises no such error: without a key function the key derivation
    succeeds. *)
Theorem key_function_required {Obj FetchType StoreType : Type}
    `{!PyObject Obj, !AsObject FetchType Obj}
    (old : Legacy.CacheValue Obj FetchType StoreType)
    (new : CacheValueWrapper Obj FetchType StoreType)
    (args : list Obj) (kwargs : kwargs_t Obj) (w : World) :
  (Legacy.get_cache_key old = None →
   Legacy.__call__ old args kwargs w
   = (Err (ValueError "cache_value: must define get_cache_key."), w))
  ∧ (∀ f e,
       Legacy.get_cache_key old = Some f →
       (Legacy.__call__ old args kwargs w).1 = Err e →
       f args kwargs = Err e
       ∨ ∃ k, f args kwargs = Ok k
          ∧ ((on (Legacy.client old) (get_value (Legacy.cache_element old) k) w).1 = Err e
             ∨ body (Legacy.func old) args kwargs = Err e
             ∨ ∃ v w', body (Legacy.func old) args kwargs = Ok v
                 ∧ (on (Legacy.client old)
                      (set_value (Legacy.cache_element old) k v) w').1 = Err e))
  ∧ (_get_cache_key new = None → ∃ k, _calculate_cache_key new args kwargs = Ok k).
Proof.
  split; [|split].
  - intros Hnone. unfold Legacy.__call__, Legacy._get_cache_key. se_unfold.
    now rewrite Hnone.
  - intros f e Hf. unfold Legacy.__call__, Legacy._get_cache_key. se_unfold. rewrite Hf.
    destruct (f args kwargs) as [k|e0]; cbn [fst]; [|intros [= ->]; now left].
    intros Herr. right. exists k. split; [reflexivity|].
    destruct (on (Legacy.client old) (get_value (Legacy.cache_element old) k) w)
      as [[[v|]|e1] w2]; cbv beta iota in Herr; cbn [fst] in *.
    + discriminate Herr.
    + right. unfold Legacy.invoke in Herr. se_unfold. cbn [log] in Herr.
      destruct (body (Legacy.func old) args kwargs) as [v|e2]; cbv beta iota in Herr;
        cbn [fst] in Herr.
      * right. exists v.
        match type of Herr with
        | context [on _ _ ?w0] => exists w0
        end.
        split; [reflexivity|].
        match goal with
        | |- (on ?c ?m ?w0).1 = _ => destruct (on c m w0) as [[[]|e3] w3]
        end; cbv beta iota in Herr; cbn [fst] in *;
          [discriminate Herr | now injection Herr as ->].
      * left. now injection Herr as ->.
    + left. now injection Herr as ->.
  - intros Hnone. unfold _calculate_cache_key. rewrite Hnone. eauto.
Qed.

Lemma key_function_required_witness :
  Legacy.__call__ legacy_unkeyed [PStr "123"] [] fresh_world
  = (Err (ValueError "cache_value: must define get_cache_key."), fresh_world)
  ∧ ∃ k, _calculate_cache_key unkeyed_wrapper [PStr "123"] [] = Ok k.
Proof.
  pose proof (key_function_required legacy_unkeyed unkeyed_wrapper [PStr "123"] [] fresh_world)
    as (Hraise & _ & Hdefault).
  split.
  - apply Hraise. reflexivity.
  - apply Hdefault. reflexivity.
Defined.

(* ===================================================================== *)
(** ** The properties on the fixtures of the test suite                   *)
(* ===================================================================== *)

(** C1, at the failing input: a call that passes a keyword [value], on a
    miss.  The wrapped function is invoked once and its result is stored
    under the derived key, but the call does not return it: it raises
    [TypeError], because the result is bound to the parameter [value] of
    [_calculate_expire_in] next to the caller's keyword.  The same call
    made again, now a hit, returns the stored result, and the wrapper of
    the old package returns the result on the same input. *)
Theorem miss_with_value_keyword :
  let kwargs := [("value", PStr "abc")] in
  let first := __call__ keyed_wrapper [PStr "123"] kwargs fresh_world in
  first.1 = Err multiple_values
  ∧ calls "decorated_function" (trace first.2) = 1%nat
  ∧ (fetch StringCacheable "cache-key" (Session (server_of first.2 test_client) [])).1
    = Ok (Some "string-value")
  ∧ (__call__ keyed_wrapper [PStr "123"] kwargs first.2).1 = Ok "string-value"
  ∧ (Legacy.__call__ legacy_keyed [PStr "123"] kwargs fresh_world).1 = Ok "string-value".
Proof.
  split; [|split; [|split; [|split]]]; vm_compute; reflexivity.
Qed.

(** C6, as stated, fails: a configured time-to-live of 0 is not applied,
    so that the key is left without time-to-live, and a configured
    [timedelta] of half a second reaches the engine as 0 seconds, which
    deletes the key. *)
Lemma configured_ttl_not_reflected :
  let zero := __call__ zero_ttl_wrapper [PInt 123] [] fresh_world in
  let half := __call__ short_lived_wrapper [PInt 123] [] fresh_world in
  zero.1 = Ok "string-value"
  ∧ Engine.ttl "cache-key" (server_of zero.2 test_client) = -1
  ∧ half.1 = Ok "string-value"
  ∧ Engine.ttl "cache-key" (server_of half.2 test_client) = -2.
Proof.
  split; [|split; [|split]]; vm_compute; reflexivity.
Qed.

Lemma memoized_call_witness :
  let first := __call__ keyed_wrapper [PStr "123"; PStr "abc"] [] fresh_world in
  first.1 = Ok "string-value"
  ∧ calls "decorated_function" (trace first.2) = 1%nat
  ∧ ∃ w5, __call__ keyed_wrapper [PStr "123"; PStr "abc"] [] first.2
          = (Ok "string-value", w5)
          ∧ calls "decorated_function" (trace w5) = 1%nat
          ∧ writes (trace w5) = writes (trace first.2).
Proof.
  set (args := [PStr "123"; PStr "abc"]).
  set (w1 := (get_cache test_caching fresh_world).2).
  set (w2 := (on test_client (get_value (_cache_element keyed_wrapper) "cache-key") w1).2).
  set (w3 := (on test_client (set_value (_cache_element keyed_wrapper) "cache-key" "string-value")
                (log (ECall "decorated_function") w2).2).2).
  assert (Hc : get_cache (_caching keyed_wrapper) fresh_world = (Ok test_client, w1))
    by (vm_compute; reflexivity).
  assert (Hget : on test_client (get_value (_cache_element keyed_wrapper) "cache-key") w1
                 = (Ok None, w2)) by (vm_compute; reflexivity).
  assert (Hset : on test_client
                   (set_value (_cache_element keyed_wrapper) "cache-key" "string-value")
                   (log (ECall (__name__ (_func keyed_wrapper))) w2).2
                 = (Ok tt, w3)) by (vm_compute; reflexivity).
  destruct (memoized_call keyed_wrapper args [] fresh_world w1 "cache-key" test_client
              eq_refl Hc) as [_ Hmiss].
  destruct (Hmiss "string-value" w2 w3 None Hget eq_refl Hset eq_refl)
    as (Hcall & Hcalls & Hnext).
  destruct (Hnext "string-value" "string-value" args [] builtin_string eq_refl eq_refl I eq_refl)
    as (w5 & Hcall2 & Hcalls2 & Hwrites2).
  cbv zeta. fold args. rewrite Hcall. cbn [fst snd].
  split; [reflexivity|]. split; [exact Hcalls|].
  exists w5. split; [exact Hcall2|]. split; [|exact Hwrites2].
  exact (eq_trans Hcalls2 Hcalls).
Defined.

Lemma ttl_after_first_store_witness :
  let first := __call__ expiring_wrapper [PInt 123] [] fresh_world in
  first.1 = Ok "string-value"
  ∧ Engine.ttl "cache-key" (server_of first.2 test_client) = 12
  ∧ (let second := __call__ (expire_in expiring_wrapper value_expires_in) [PInt 123] []
                     fresh_world in
     Engine.ttl "cache-key" (server_of second.2 test_client) = 15)
  ∧ (let third := __call__ (expire_in expiring_wrapper sum_expires_in) [PInt 123] []
                    fresh_world in
     Engine.ttl "cache-key" (server_of third.2 test_client) = 135)
  ∧ sum_expires_in [PInt 123] [("value", PStr "string-value")] = Ok (Some (Seconds 135)).
Proof.
  set (w1 := (get_cache test_caching fresh_world).2).
  set (w2 := (on test_client (get_value (_cache_element expiring_wrapper) "cache-key") w1).2).
  set (w3 := (on test_client
                (set_value (_cache_element expiring_wrapper) "cache-key" "string-value")
                (log (ECall "decorated_function") w2).2).2).
  assert (Hc : get_cache test_caching fresh_world = (Ok test_client, w1))
    by (vm_compute; reflexivity).
  assert (Hget : on test_client (get_value (_cache_element expiring_wrapper) "cache-key") w1
                 = (Ok None, w2)) by (vm_compute; reflexivity).
  assert (Hset : on test_client
                   (set_value (_cache_element expiring_wrapper) "cache-key" "string-value")
                   (log (ECall "decorated_function") w2).2
                 = (Ok tt, w3)) by (vm_compute; reflexivity).
  destruct (ttl_after_first_store expiring_wrapper [PInt 123] [] fresh_world w1 w2 w3
              "cache-key" test_client "string-value" "string-value" (Timedelta 12000000)
              eq_refl Hc Hget eq_refl Hset eq_refl eq_refl) as (Hcall & _ & Httl & _).
  destruct (ttl_after_first_store (expire_in expiring_wrapper value_expires_in)
              [PInt 123] [] fresh_world w1 w2 w3
              "cache-key" test_client "string-value" "string-value" (Seconds 15)
              eq_refl Hc Hget eq_refl Hset eq_refl eq_refl) as (Hcall' & _ & Httl' & _).
  assert (Hsum : _calculate_expire_in (expire_in expiring_wrapper sum_expires_in)
                   "string-value" [PInt 123] [] = Ok (Some (Seconds 135)))
    by (vm_compute; reflexivity).
  destruct (ttl_after_first_store (expire_in expiring_wrapper sum_expires_in)
              [PInt 123] [] fresh_world w1 w2 w3
              "cache-key" test_client "string-value" "string-value" (Seconds 135)
              eq_refl Hc Hget eq_refl Hset Hsum eq_refl)
    as (Hcall'' & _ & Httl'' & _ & Hpassed).
  cbv zeta. rewrite Hcall, Hcall', Hcall''. cbn [fst snd].
  split; [reflexivity|]. split; [|split; [|split]].
  - apply (Httl builtin_string eq_refl). reflexivity.
  - apply (Httl' builtin_string eq_refl). reflexivity.
  - apply (Httl'' builtin_string eq_refl). reflexivity.
  - exact (Hpassed sum_expires_in eq_refl).
Defined.

Lemma call_reads_the_cache_witness :
  let first := __call__ keyed_wrapper [PStr "123"] [] fresh_world in
  let changed := (on test_client (Client.set "cache-key" "new_cached_value") first.2).2 in
  first.1 = Ok "string-value"
  ∧ (__call__ keyed_wrapper [PStr "123"] [] changed).1 = Ok "new_cached_value".
Proof.
  intros first changed. split; [vm_compute; reflexivity|].
  assert (Hc : get_cache (_caching keyed_wrapper) changed = (Ok test_client, changed))
    by (vm_compute; reflexivity).
  destruct (call_reads_the_cache keyed_wrapper [PStr "123"] [] changed changed
              "cache-key" test_client eq_refl Hc) as [_ Hread].
  apply (Hread "new_cached_value" "new_cached_value"); [vm_compute|]; reflexivity.
Defined.


(* ===================================================================== *)
(** ** Further properties of the adapters                                 *)
(* ===================================================================== *)

(** What an update leaves in the database: the engine's result, or, when
    the engine refuses, what was there. *)
Lemma update_db (c : command) (f : Engine.db → result Engine.db) (s : session) :
  s_db (Client.update c f s).2
  = match f (s_db s) with Ok d' => d' | Err _ => s_db s end.
Proof. unfold Client.update. now destruct (f (s_db s)). Qed.

Lemma hset_other_key (k k' : string) (fields : gmap string string) (d : Engine.db) :
  k' ≠ k →
  match Engine.hset k fields d with Ok d' => d' | Err _ => d end !! k' = d !! k'.
Proof.
  intros Hne. unfold Engine.hset. case_bool_decide; [reflexivity|].
  destruct (d !! k) as [[[x|h|l] t]|]; try reflexivity; now rewrite lookup_insert_ne.
Qed.

Lemma rpush_other_key (k k' : string) (vs : list string) (d : Engine.db) :
  k' ≠ k →
  match Engine.rpush k vs d with Ok d' => d' | Err _ => d end !! k' = d !! k'.
Proof.
  intros Hne. unfold Engine.rpush. destruct vs as [|x vs]; [reflexivity|].
  destruct (d !! k) as [[[y|h|l] t]|]; try reflexivity; now rewrite lookup_insert_ne.
Qed.

Lemma expire_other_key (k k' : string) (n : Z) (d : Engine.db) :
  k' ≠ k →
  match Engine.expire k n d with Ok d' => d' | Err _ => d end !! k' = d !! k'.
Proof.
  intros Hne. unfold Engine.expire.
  destruct (d !! k) as [[x t]|]; [|reflexivity].
  destruct (n <=? 0); [now rewrite lookup_delete_ne | now rewrite lookup_insert_ne].
Qed.

Lemma client_hset_other_key (k k' : string) kv mapping (s : session) :
  k' ≠ k → s_db (Client.hset k kv mapping s).2 !! k' = s_db s !! k'.
Proof.
  intros Hne. unfold Client.hset.
  destruct (negb (bool_decide (is_Some kv)) && negb (truthy mapping)); [reflexivity|].
  rewrite update_db. now apply hset_other_key.
Qed.

(** A store under one key leaves every other key as it was, whether the
    store completes or raises. *)
Lemma store_other_key S (a : Cacheable S) (k k' : string) (v : S) (s : session) :
  builtin_adapter S a → k' ≠ k → s_db (store a k v s).2 !! k' = s_db s !! k'.
Proof.
  intros Ha Hne. destruct Ha.
  - cbn [store StringCacheable]. unfold Client.set. rewrite update_db. cbn.
    now rewrite lookup_insert_ne.
  - now apply client_hset_other_key.
  - now apply client_hset_other_key.
  - rewrite list_store. unfold Client.rpush. rewrite update_db. cbn [s_db].
    rewrite rpush_other_key by assumption. now rewrite lookup_delete_ne.
Qed.

(** X1: a store under one key, by any of the four adapters, leaves every
    other key untouched, so what any adapter fetches under another key is
    what it fetched before; this holds whether the store completes or
    raises. *)
Theorem store_touches_one_key S S' (a : Cacheable S) (a' : Cacheable S')
    (k k' : string) (v : S) (s : session) :
  builtin_adapter S a → builtin_adapter S' a' → k' ≠ k →
  s_db (store a k v s).2 !! k' = s_db s !! k'
  ∧ (fetch a' k' (store a k v s).2).1 = (fetch a' k' s).1.
Proof.
  intros Ha Ha' Hne.
  pose proof (store_other_key S a k k' v s Ha Hne) as Hk'.
  split; [exact Hk'|].
  apply fetch_value_only; [assumption|]. now rewrite Hk'.
Qed.

Lemma store_touches_one_key_witness :
  let s := (store StringCacheable "other" "kept" fresh_session).2 in
  (fetch StringCacheable "other" (store ListCacheable "k" ["a"] s).2).1 = Ok (Some "kept")
  ∧ (fetch StringCacheable "other" (store ListCacheable "k" [] s).2).1 = Ok (Some "kept").
Proof.
  intros s.
  assert (Hne : "other" ≠ "k") by discriminate.
  split.
  - rewrite (proj2 (store_touches_one_key _ _ ListCacheable StringCacheable "k" "other"
                      ["a"] s builtin_list builtin_string Hne)).
    reflexivity.
  - rewrite (proj2 (store_touches_one_key _ _ ListCacheable StringCacheable "k" "other"
                      [] s builtin_list builtin_string Hne)).
    reflexivity.
Defined.

Lemma dict_string_store_db (f k v : string) (s : session) :
  s_db (store (DictStringCacheable f) k v s).2
  = match Engine.hset k {[f := v]} (s_db s) with Ok d' => d' | Err _ => s_db s end.
Proof.
  cbn [store DictStringCacheable]. unfold Client.hset.
  replace (bool_decide (is_Some (Some (f, v)))) with true
    by (symmetry; apply bool_decide_eq_true; eauto).
  cbn [negb andb default]. rewrite (left_id_L ∅ (∪)). apply update_db.
Qed.

(** X2: storing one field of a hash through the hash-field adapter leaves
    every other field of that hash as it was: what the adapter of another
    field fetches under the key does not change, whether the store
    completes or raises. *)
Theorem hash_fields_independent (f f' k v : string) (s : session) :
  f' ≠ f →
  (fetch (DictStringCacheable f') k (store (DictStringCacheable f) k v s).2).1
  = (fetch (DictStringCacheable f') k s).1.
Proof.
  intros Hne. cbn [fetch DictStringCacheable]. unfold Client.hget, Client.query.
  cbn [fst]. rewrite dict_string_store_db. unfold Engine.hset, Engine.hget.
  case_bool_decide; [reflexivity|].
  destruct (s_db s !! k) as [[[x|h|l] t]|] eqn:Hk; rewrite ?Hk; try reflexivity;
    rewrite lookup_insert_eq.
  - f_equal. rewrite lookup_union_r; [reflexivity|]. now apply lookup_singleton_ne.
  - f_equal. now apply lookup_singleton_ne.
Qed.

Lemma hash_fields_independent_witness :
  let s := (store (DictStringCacheable "a") "k" "1" fresh_session).2 in
  (fetch (DictStringCacheable "a") "k" (store (DictStringCacheable "b") "k" "2" s).2).1
  = Ok (Some "1").
Proof.
  intros s.
  rewrite (hash_fields_independent "b" "a" "k" "2" s); [reflexivity | discriminate].
Defined.

(** X3: the whole-hash adapter and the hash-field adapters read and write
    the same hash: a field of a mapping stored through the whole-hash
    adapter is what the adapter of that field fetches, and a field stored
    through a hash-field adapter is in the mapping the whole-hash adapter
    fetches, which is that field alone when the key held nothing. *)
Theorem hash_adapters_agree (k : string) (s : session) :
  (∀ (v : DictCacheType) (f x : string),
     (store DictCacheable k v s).1 = Ok tt → v !! f = Some x →
     (fetch (DictStringCacheable f) k (store DictCacheable k v s).2).1 = Ok (Some x))
  ∧ (∀ f x : string,
       (store (DictStringCacheable f) k x s).1 = Ok tt →
       ∃ h, (fetch DictCacheable k (store (DictStringCacheable f) k x s).2).1 = Ok (Some h)
            ∧ h !! f = Some x
            ∧ (unset k s → h = {[f := x]})).
Proof.
  split.
  - intros v f x Hok Hf.
    destruct (dict_store_ok k v s Hok) as (_ & h0 & t & _ & Hk).
    cbn [fetch DictStringCacheable]. unfold Client.hget, Client.query, Engine.hget.
    cbn [fst]. rewrite Hk. f_equal. now apply lookup_union_Some_l.
  - intros f x Hok.
    destruct (dict_string_store_ok f k x s Hok) as (h & t & Hk & Hf).
    exists h. rewrite (dict_fetch_hash k h t _ Hk). unfold or_None.
    assert (Hne : h ≠ ∅) by (intros ->; now rewrite lookup_empty in Hf).
    apply gmap_truthy_nonempty in Hne. rewrite Hne.
    split; [reflexivity | split; [assumption|]].
    unfold unset. intros Hunset. rewrite dict_string_store_db in Hk.
    unfold Engine.hset in Hk. rewrite Hunset in Hk.
    case_bool_decide as He; [now apply map_non_empty_singleton in He|].
    rewrite lookup_insert_eq in Hk. now injection Hk.
Qed.

Lemma hash_adapters_agree_witness :
  (fetch (DictStringCacheable "hash") "k"
     (store DictCacheable "k" {["hash" := "value"]} fresh_session).2).1 = Ok (Some "value")
  ∧ ∃ h, (fetch DictCacheable "k"
            (store (DictStringCacheable "dict-key") "k" "string-value" fresh_session).2).1
         = Ok (Some h)
         ∧ h = {["dict-key" := "string-value"]}.
Proof.
  destruct (hash_adapters_agree "k" fresh_session) as [Hwhole Hfield].
  split.
  - apply Hwhole; [vm_compute; reflexivity | apply lookup_singleton_eq].
  - destruct (Hfield "dict-key" "string-value") as (h & Hh & _ & Hunset);
      [vm_compute; reflexivity|].
    exists h. split; [exact Hh | apply Hunset; reflexivity].
Defined.

(** X4: fetching through an adapter a key that holds a value of another
    kind (a string adapter on a hash, a hash adapter on a list, ...) raises
    the engine's WRONGTYPE error: it is not read as the sentinel, and the
    database is left as it was. *)
Theorem fetch_wrong_type_raises S (a : Cacheable S) (kd : kind) (k : string)
    (s : session) (x : Engine.rvalue) (t : option Z) :
  adapter_kind S a kd →
  s_db s !! k = Some (Engine.Entry x t) →
  kind_of x ≠ kd →
  (fetch a k s).1 = Err Engine.WRONGTYPE
  ∧ s_db (fetch a k s).2 = s_db s.
Proof.
  intros Ha Hk Hkind.
  destruct Ha; cbn [fetch StringCacheable DictStringCacheable DictCacheable ListCacheable];
    client_unfold; se_unfold; cbn [fst snd s_db];
    unfold Engine.get, Engine.hget, Engine.hgetall, Engine.lrange; rewrite Hk;
    destruct x; cbn in Hkind; try contradiction; split; reflexivity.
Qed.

Lemma fetch_wrong_type_raises_witness :
  let s := (store DictCacheable "k" {["hash" := "value"]} fresh_session).2 in
  (fetch StringCacheable "k" s).1 = Err Engine.WRONGTYPE
  ∧ (fetch ListCacheable "k" s).1 = Err Engine.WRONGTYPE.
Proof.
  intros s.
  assert (Hk : s_db s !! "k" = Some (Engine.Entry (Engine.RHash {["hash" := "value"]}) None))
    by (vm_compute; reflexivity).
  split.
  - apply (fetch_wrong_type_raises _ StringCacheable KString "k" s _ _ kind_string Hk).
    discriminate.
  - apply (fetch_wrong_type_raises _ ListCacheable KList "k" s _ _ kind_list Hk).
    discriminate.
Defined.

(** X5: the string adapter's store always completes and replaces whatever
    the key held, of any kind, by the string with no time-to-live; the
    list adapter's store of a non-empty list does the same with the list;
    the two hash adapters refuse a key that holds a string or a list: their
    store raises and the database is left as it was. *)
Theorem store_over_other_type (k : string) (s : session) :
  (∀ v, (store StringCacheable k v s).1 = Ok tt
        ∧ s_db (store StringCacheable k v s).2 !! k
          = Some (Engine.Entry (Engine.RString v) None))
  ∧ (∀ v, v ≠ [] →
          (store ListCacheable k v s).1 = Ok tt
          ∧ s_db (store ListCacheable k v s).2 !! k
            = Some (Engine.Entry (Engine.RList v) None))
  ∧ (∀ S (a : Cacheable S) (v : S) x t,
       adapter_kind S a KHash →
       s_db s !! k = Some (Engine.Entry x t) →
       kind_of x ≠ KHash →
       (∃ e, (store a k v s).1 = Err e) ∧ s_db (store a k v s).2 = s_db s).
Proof.
  split; [|split].
  - intros v. rewrite string_store. cbn. split; [reflexivity | apply lookup_insert_eq].
  - intros v Hv. rewrite list_store_nonempty by assumption. cbn.
    split; [reflexivity | apply lookup_insert_eq].
  - intros S a v x t Ha Hk Hkind.
    assert (Hset : ∀ kv mapping,
               (∃ e, (Client.hset k kv mapping s).1 = Err e)
               ∧ s_db (Client.hset k kv mapping s).2 = s_db s).
    { intros kv mapping. unfold Client.hset.
      destruct (negb (bool_decide (is_Some kv)) && negb (truthy mapping));
        [split; [eexists|]; reflexivity|].
      unfold Client.update, Engine.hset. case_bool_decide.
      - split; [eexists|]; reflexivity.
      - rewrite Hk. destruct x; cbn in Hkind; try contradiction;
          (split; [eexists|]; reflexivity). }
    clear Hk Hkind. revert v. remember KHash as kd eqn:Hkd.
    destruct Ha; try discriminate Hkd; intros v; apply Hset.
Qed.

Lemma store_over_other_type_witness :
  let s := (store ListCacheable "k" ["list"; "value"] fresh_session).2 in
  (fetch StringCacheable "k" (store StringCacheable "k" "string-value" s).2).1
  = Ok (Some "string-value")
  ∧ (∃ e, (store (DictStringCacheable "dict-key") "k" "string-value" s).1 = Err e)
  ∧ (fetch ListCacheable "k" (store (DictStringCacheable "dict-key") "k" "string-value" s).2).1
    = Ok (Some ["list"; "value"]).
Proof.
  intros s.
  destruct (store_over_other_type "k" s) as (Hstring & _ & Hhash).
  assert (Hk : s_db s !! "k" = Some (Engine.Entry (Engine.RList ["list"; "value"]) None))
    by (vm_compute; reflexivity).
  assert (Hkind : kind_of (Engine.RList ["list"; "value"]) ≠ KHash) by discriminate.
  destruct (Hhash _ (DictStringCacheable "dict-key") "string-value" _ _
              (kind_dict_string "dict-key") Hk Hkind) as [Herr Hdb].
  split; [|split].
  - apply string_fetch_after_store.
  - exact Herr.
  - rewrite (fetch_value_only _ ListCacheable "k" _ s builtin_list) by now rewrite Hdb.
    vm_compute; reflexivity.
Defined.

(** X6: an empty list and an empty mapping cannot be stored.  The list
    adapter's store of [[]] raises after it has deleted the key, so a list
    the key held is lost and the key then fetches as the sentinel; the
    whole-hash adapter's store of the empty mapping is refused by the
    client library before any command is sent. *)
Theorem empty_collections_not_storable (k : string) (s : session) :
  (store ListCacheable k [] s).1 = Err (Engine.wrong_arity "rpush")
  ∧ s_db (store ListCacheable k [] s).2 = delete k (s_db s)
  ∧ (fetch ListCacheable k (store ListCacheable k [] s).2).1 = Ok None
  ∧ store DictCacheable k ∅ s = (Err (DataError "'hset' with no key value pairs"), s).
Proof.
  rewrite list_store_empty. cbn [fst snd s_db].
  split; [reflexivity | split; [reflexivity | split]].
  - apply fetch_unset; [constructor|]. unfold unset. cbn. apply lookup_delete_eq.
  - reflexivity.
Qed.

(* ===================================================================== *)
(** ** Further properties of the cache elements                           *)
(* ===================================================================== *)

Section ElementResults.
Context {FetchType StoreType : Type}.
Implicit Types (e : CacheElement FetchType StoreType).

(** What [get_value] returns, from what [fetch] returns. *)
Lemma get_value_result e (k : string) (s : session) :
  (get_value e k s).1
  = match (fetch (cacheable e) k s).1 with
    | Ok (Some sv) =>
        match load e sv with
        | Ok v => Ok (Some v)
        | Err err => Err err
        end
    | Ok None => Ok None
    | Err err => Err err
    end.
Proof.
  unfold get_value. se_unfold.
  destruct (fetch (cacheable e) k s) as [[[sv|]|err] s']; cbn [fst]; try reflexivity.
  now destruct (load e sv).
Qed.

Lemma get_value_db e (k : string) (s : session) :
  builtin_adapter StoreType (cacheable e) → s_db (get_value e k s).2 = s_db s.
Proof.
  intros Ha. rewrite get_value_session. apply (fetch_reads_only _ _ k s Ha).
Qed.

(** [set_value] under one key leaves the other keys as they were. *)
Lemma set_value_other_key e (k k' : string) (v : FetchType) (s : session) :
  builtin_adapter StoreType (cacheable e) → k' ≠ k →
  s_db (set_value e k v s).2 !! k' = s_db s !! k'.
Proof.
  intros Ha Hne. unfold set_value. se_unfold.
  destruct (dump e v) as [sv|err]; [|reflexivity].
  now apply store_other_key.
Qed.

End ElementResults.

(** X7: a datetime set through [CacheDateTime] is kept as the text its
    [isoformat] gives, written by one [SET]; whenever [fromisoformat] reads
    that text back as the datetime, [get_value] after [set_value] returns the
    datetime, and a plain string fetch of the key returns the text. *)
Theorem datetime_round_trip {datetime : Type} (isoformat : datetime → string)
    (fromisoformat : string → result datetime) (k : string) (d : datetime) (s : session) :
  fromisoformat (isoformat d) = Ok d →
  let e := CacheDateTime datetime isoformat fromisoformat in
  (set_value e k d s).1 = Ok tt
  ∧ s_log (set_value e k d s).2 = (s_log s ++ [SET k (isoformat d)])%list
  ∧ (get_value e k (set_value e k d s).2).1 = Ok (Some d)
  ∧ (fetch StringCacheable k (set_value e k d s).2).1 = Ok (Some (isoformat d)).
Proof.
  intros Hiso e.
  assert (Hset : set_value e k d s = store StringCacheable k (isoformat d) s)
    by (apply set_value_dumped; reflexivity).
  rewrite Hset.
  pose proof (string_fetch_after_store k (isoformat d) s) as Hfetch.
  split; [reflexivity | split; [reflexivity | split; [|exact Hfetch]]].
  now apply (get_value_some e k _ (isoformat d) d).
Qed.

Lemma datetime_round_trip_witness :
  let e := CacheDateTime Datetime.t Datetime.isoformat Datetime.fromisoformat in
  Datetime.isoformat test_now = "2021-03-04T05:06:07.000089"
  ∧ (get_value e "cache-key" (set_value e "cache-key" test_now fresh_session).2).1
    = Ok (Some test_now)
  ∧ (fetch StringCacheable "cache-key" (set_value e "cache-key" test_now fresh_session).2).1
    = Ok (Some "2021-03-04T05:06:07.000089").
Proof.
  intros e.
  assert (Hiso : Datetime.isoformat test_now = "2021-03-04T05:06:07.000089")
    by (vm_compute; reflexivity).
  assert (Hback : Datetime.fromisoformat (Datetime.isoformat test_now) = Ok test_now)
    by (vm_compute; reflexivity).
  destruct (datetime_round_trip Datetime.isoformat Datetime.fromisoformat
              "cache-key" test_now fresh_session Hback) as (_ & _ & Hget & Hfetch).
  split; [exact Hiso|]. split; [exact Hget|].
  rewrite <- Hiso. exact Hfetch.
Defined.

(* ===================================================================== *)
(** ** Further properties of the memoizing wrapper                        *)
(* ===================================================================== *)

Lemma get_cache_servers (h : RedisCaching) (w : World) :
  servers (get_cache h w).2 = servers w.
Proof.
  destruct (get_cache_cases h w) as [(c0 & Hc & Heq)|[(Hc & _ & Heq)|(_ & e & Heq)]];
    rewrite Heq; reflexivity.
Qed.

Lemma server_of_get_cache (h : RedisCaching) (w : World) (c : Redis) :
  server_of (get_cache h w).2 c = server_of w c.
Proof. unfold server_of. now rewrite get_cache_servers. Qed.

Lemma on_server_other {A} (c c' : Redis) (m : R A) (w : World) :
  r_url c' ≠ r_url c → server_of (on c m w).2 c' = server_of w c'.
Proof.
  intros Hne. rewrite on_eq. unfold server_of. cbn [snd servers].
  now rewrite lookup_insert_ne.
Qed.

Lemma calls_logged (name : string) (w : World) :
  calls name (trace (log (ECall name) w).2) = S (calls name (trace w)).
Proof.
  cbn [log snd trace]. rewrite calls_app. unfold calls at 2.
  cbn [filter list_filter is_call].
  rewrite decide_True; [cbn; lia|]. now apply bool_decide_eq_true.
Qed.

(** Once a client is obtained, the holder finds it again in every world
    reached by running commands on clients and logging. *)
Lemma get_cache_again {A} (h : RedisCaching) (w w1 w2 : World) (c c' : Redis) (m : R A) r :
  get_cache h w = (Ok c, w1) →
  on c' m w1 = (r, w2) →
  get_cache h w2 = (Ok c, w2).
Proof.
  intros Hc Hon. apply get_cache_cached.
  replace w2 with (on c' m w1).2 by now rewrite Hon.
  rewrite on_instances. now apply (get_cache_registers _ w).
Qed.

Section CallPaths.
Context {Obj FetchType StoreType : Type}.
Context `{!PyObject Obj, !AsObject FetchType Obj}.
Implicit Types (self : CacheValueWrapper Obj FetchType StoreType).
Implicit Types (args : list Obj) (kwargs : kwargs_t Obj).

(** The call whose fetch misses, step by step: the invocation, the store,
    the time-to-live; the first step that raises ends the call. *)
Lemma call_miss_cases self args kwargs (w w1 w2 : World) (k : string) (c : Redis) :
  _calculate_cache_key self args kwargs = Ok k →
  get_cache (_caching self) w = (Ok c, w1) →
  on c (get_value (_cache_element self) k) w1 = (Ok None, w2) →
  __call__ self args kwargs w
  = match body (_func self) args kwargs with
    | Err err => (Err err, (log (ECall (__name__ (_func self))) w2).2)
    | Ok v =>
        match on c (set_value (_cache_element self) k v)
                (log (ECall (__name__ (_func self))) w2).2 with
        | (Err err, w3) => (Err err, w3)
        | (Ok _, w3) =>
            match _calculate_expire_in self v args kwargs with
            | Err err => (Err err, w3)
            | Ok t => (Ok v, (apply_ttl c k t w3).2)
            end
        end
    end.
Proof.
  intros Hk Hc Hget.
  pose proof (get_cache_again _ w w1 w2 c c _ _ Hc Hget) as Hc2.
  unfold __call__. se_unfold. rewrite Hk, Hc, Hget, Hc2.
  unfold invoke. se_unfold.
  change (log (ECall (__name__ (_func self))) w2)
    with (Ok tt, (log (ECall (__name__ (_func self))) w2).2).
  cbn [snd].
  destruct (body (_func self) args kwargs) as [v|err]; [|reflexivity].
  destruct (on c (set_value (_cache_element self) k v)
              (log (ECall (__name__ (_func self))) w2).2) as [[[]|err] w3]; [|reflexivity].
  destruct (_calculate_expire_in self v args kwargs) as [t|err]; [|reflexivity].
  pose proof (apply_ttl_ok c k t w3) as Hok. unfold apply_ttl in *.
  destruct t as [t|]; [destruct (truthy t)|]; try reflexivity.
  destruct (on c (Client.expire k t) w3) as [r w4]. cbn in Hok. now subst r.
Qed.

(** A call whose fetch misses invokes the wrapped function once, whatever
    happens afterwards. *)
Lemma call_miss_calls self args kwargs (w w1 w2 : World) (k : string) (c : Redis) :
  _calculate_cache_key self args kwargs = Ok k →
  get_cache (_caching self) w = (Ok c, w1) →
  on c (get_value (_cache_element self) k) w1 = (Ok None, w2) →
  calls (__name__ (_func self)) (trace (__call__ self args kwargs w).2)
  = S (calls (__name__ (_func self)) (trace w)).
Proof.
  intros Hk Hc Hget. rewrite (call_miss_cases self args kwargs w w1 w2 k c Hk Hc Hget).
  set (n := __name__ (_func self)).
  assert (Hl : calls n (trace (log (ECall n) w2).2) = S (calls n (trace w))).
  { rewrite calls_logged. f_equal.
    replace w2 with (on c (get_value (_cache_element self) k) w1).2 by now rewrite Hget.
    rewrite calls_on.
    replace w1 with (get_cache (_caching self) w).2 by now rewrite Hc.
    apply calls_get_cache. }
  destruct (body (_func self) args kwargs) as [v|err]; [|exact Hl].
  pose proof (calls_on n c (set_value (_cache_element self) k v) (log (ECall n) w2).2) as Hs.
  destruct (on c (set_value (_cache_element self) k v) (log (ECall n) w2).2) as [[[]|err] w3];
    cbn [snd] in *; [|now rewrite Hs].
  destruct (_calculate_expire_in self v args kwargs) as [t|err]; cbn [snd].
  - now rewrite calls_apply_ttl, Hs.
  - now rewrite Hs.
Qed.

(** A call whose fetch does not miss, or that does not get as far as the
    fetch, does not invoke the wrapped function. *)
Lemma call_no_miss_calls self args kwargs (w : World) :
  (∀ k c w1,
     _calculate_cache_key self args kwargs = Ok k →
     get_cache (_caching self) w = (Ok c, w1) →
     (on c (get_value (_cache_element self) k) w1).1 ≠ Ok None) →
  calls (__name__ (_func self)) (trace (__call__ self args kwargs w).2)
  = calls (__name__ (_func self)) (trace w).
Proof.
  intros Hno. unfold __call__. se_unfold.
  destruct (_calculate_cache_key self args kwargs) as [k|err] eqn:Hk; [|reflexivity].
  pose proof (calls_get_cache (__name__ (_func self)) (_caching self) w) as Hcalls.
  destruct (get_cache (_caching self) w) as [[c|err] w1] eqn:Hc; [|exact Hcalls].
  specialize (Hno k c w1 eq_refl eq_refl).
  pose proof (calls_on (__name__ (_func self)) c (get_value (_cache_element self) k) w1) as Hon.
  cbn [snd] in Hcalls.
  destruct (on c (get_value (_cache_element self) k) w1) as [[[v|]|err] w2];
    cbn [fst snd] in *; [now rewrite Hon | contradiction | now rewrite Hon].
Qed.

(** X8: whatever a call does (return or raise), it invokes the wrapped
    function at most once, and it invokes it exactly when the key was
    derived, the client obtained, and the value got for the key is the
    sentinel: never when the key function, the client construction, the
    fetch or the load raises, and never on a hit. *)
Theorem invoked_exactly_on_miss self args kwargs (w : World) :
  let n := __name__ (_func self) in
  let after := (__call__ self args kwargs w).2 in
  (calls n (trace after) = calls n (trace w)
   ∨ calls n (trace after) = S (calls n (trace w)))
  ∧ (calls n (trace after) = S (calls n (trace w))
     ↔ ∃ k c w1,
         _calculate_cache_key self args kwargs = Ok k
         ∧ get_cache (_caching self) w = (Ok c, w1)
         ∧ (on c (get_value (_cache_element self) k) w1).1 = Ok None).
Proof.
  intros n after.
  assert (Hcases :
    (∃ k c w1, _calculate_cache_key self args kwargs = Ok k
       ∧ get_cache (_caching self) w = (Ok c, w1)
       ∧ (on c (get_value (_cache_element self) k) w1).1 = Ok None)
    ∨ (∀ k c w1, _calculate_cache_key self args kwargs = Ok k →
         get_cache (_caching self) w = (Ok c, w1) →
         (on c (get_value (_cache_element self) k) w1).1 ≠ Ok None)).
  { destruct (_calculate_cache_key self args kwargs) as [k|err]; [|right; discriminate].
    destruct (get_cache (_caching self) w) as [[c|err] w1]; [|right; discriminate].
    destruct (on c (get_value (_cache_element self) k) w1) as [[[v|]|err] w2] eqn:Hget.
    - right. intros k' c' w1' [= <-] [= <- <-]. rewrite Hget. discriminate.
    - left. exists k, c, w1. now rewrite Hget.
    - right. intros k' c' w1' [= <-] [= <- <-]. rewrite Hget. discriminate. }
  destruct Hcases as [(k & c & w1 & Hk & Hc & Hget)|Hno].
  - assert (Hs : calls n (trace after) = S (calls n (trace w))).
    { destruct (on c (get_value (_cache_element self) k) w1) as [r w2] eqn:Hon.
      cbn [fst] in Hget. subst r.
      exact (call_miss_calls self args kwargs w w1 w2 k c Hk Hc Hon). }
    split; [now right|]. split; [intros _; now exists k, c, w1 | intros _; exact Hs].
  - pose proof (call_no_miss_calls self args kwargs w Hno) as He. fold n after in He.
    split; [now left|]. split.
    + intros Hs. rewrite He in Hs. lia.
    + intros (k & c & w1 & Hk & Hc & Hget). now destruct (Hno k c w1 Hk Hc).
Qed.

End CallPaths.

Lemma invoked_exactly_on_miss_witness :
  let first := (__call__ keyed_wrapper [PStr "123"; PStr "abc"] [] fresh_world).2 in
  let second := (__call__ keyed_wrapper [PStr "123"; PStr "abc"] [] first).2 in
  calls "decorated_function" (trace first) = 1%nat
  ∧ calls "decorated_function" (trace second) = 1%nat.
Proof.
  intros first second.
  pose proof (invoked_exactly_on_miss keyed_wrapper [PStr "123"; PStr "abc"] [] fresh_world)
    as [_ Hfirst].
  pose proof (invoked_exactly_on_miss keyed_wrapper [PStr "123"; PStr "abc"] [] first)
    as [Hsecond Hiff].
  split.
  - apply Hfirst. exists "cache-key", test_client, (get_cache test_caching fresh_world).2.
    split; [reflexivity|]. split; vm_compute; reflexivity.
  - destruct Hsecond as [Hsame|Hmore]; [exact Hsame|].
    apply Hiff in Hmore. destruct Hmore as (k & c & w1 & Hk & Hc & Hget).
    injection Hk as <-.
    assert (Hc' : get_cache (_caching keyed_wrapper) first = (Ok test_client, first))
      by (vm_compute; reflexivity).
    rewrite Hc' in Hc. injection Hc as <- <-.
    vm_compute in Hget. discriminate Hget.
Defined.

Lemma same_elsewhere_refl (k : string) (c : Redis) (w : World) : same_elsewhere k c w w.
Proof. intros k' _. reflexivity. Qed.

Lemma same_elsewhere_trans (k : string) (c : Redis) (w1 w2 w3 : World) :
  same_elsewhere k c w1 w2 → same_elsewhere k c w2 w3 → same_elsewhere k c w1 w3.
Proof. intros H1 H2 k' Hne. now rewrite H2, H1. Qed.

Lemma same_elsewhere_on {A} (k : string) (c : Redis) (m : R A) (w : World) :
  touches_only k m → same_elsewhere k c w (on c m w).2.
Proof. intros Hm k' Hne. rewrite on_server. now apply Hm. Qed.

Lemma same_elsewhere_servers (k : string) (c : Redis) (w w' : World) :
  servers w' = servers w → same_elsewhere k c w w'.
Proof. intros Hs k' _. unfold server_of. now rewrite Hs. Qed.

Lemma expire_touches_only (k : string) (t : timeval) : touches_only k (Client.expire k t).
Proof.
  intros s k' Hne. unfold Client.expire. rewrite update_db. now apply expire_other_key.
Qed.

Lemma delete_touches_only (k : string) : touches_only k (Client.delete k).
Proof.
  intros s k' Hne. unfold Client.delete. rewrite update_db. cbn.
  now apply lookup_delete_ne.
Qed.

Lemma same_elsewhere_apply_ttl (k : string) (c : Redis) (t : option timeval) (w : World) :
  same_elsewhere k c w (apply_ttl c k t w).2.
Proof.
  unfold apply_ttl. destruct t as [t|]; [destruct (truthy t)|];
    try apply same_elsewhere_refl.
  apply same_elsewhere_on, expire_touches_only.
Qed.

(** What is registered stays registered through a call's steps. *)
Lemma get_cache_registered (h : RedisCaching) (w w1 w' : World) (c : Redis) :
  get_cache h w = (Ok c, w1) →
  cache_instances w' = cache_instances w1 →
  get_cache h w' = (Ok c, w').
Proof.
  intros Hc Hi. apply get_cache_cached. rewrite Hi. now apply (get_cache_registers _ w).
Qed.

Section CallEffects.
Context {Obj FetchType StoreType : Type}.
Context `{!PyObject Obj, !AsObject FetchType Obj}.
Implicit Types (self : CacheValueWrapper Obj FetchType StoreType).
Implicit Types (args : list Obj) (kwargs : kwargs_t Obj).

Lemma get_value_touches_only (e : CacheElement FetchType StoreType) (k : string) :
  builtin_adapter StoreType (cacheable e) → touches_only k (get_value e k).
Proof. intros Ha s k' _. now rewrite get_value_db. Qed.

Lemma set_value_touches_only (e : CacheElement FetchType StoreType) (k : string)
    (v : FetchType) :
  builtin_adapter StoreType (cacheable e) → touches_only k (set_value e k v).
Proof. intros Ha s k' Hne. now apply set_value_other_key. Qed.

(** The registry after a call is the registry after the call's first
    [get_cache]. *)
Lemma call_instances self args kwargs (w w1 : World) (k : string) (c : Redis) :
  _calculate_cache_key self args kwargs = Ok k →
  get_cache (_caching self) w = (Ok c, w1) →
  cache_instances (__call__ self args kwargs w).2 = cache_instances w1.
Proof.
  intros Hk Hc.
  pose proof (on_instances c (get_value (_cache_element self) k) w1) as Hi2.
  destruct (on c (get_value (_cache_element self) k) w1) as [[[v|]|err] w2] eqn:Hget;
    cbn [snd] in Hi2.
  - now rewrite (call_hit self args kwargs w w1 w2 k c v Hk Hc Hget).
  - rewrite (call_miss_cases self args kwargs w w1 w2 k c Hk Hc Hget).
    destruct (body (_func self) args kwargs) as [v|err]; [|exact Hi2].
    pose proof (on_instances c (set_value (_cache_element self) k v)
                  (log (ECall (__name__ (_func self))) w2).2) as Hi3.
    destruct (on c (set_value (_cache_element self) k v)
                (log (ECall (__name__ (_func self))) w2).2) as [[[]|err] w3];
      cbn [snd] in *; [|now rewrite Hi3].
    destruct (_calculate_expire_in self v args kwargs) as [t|err]; cbn [snd].
    + now rewrite apply_ttl_instances, Hi3.
    + now rewrite Hi3.
  - unfold __call__. se_unfold. now rewrite Hk, Hc, Hget.
Qed.

(** X9: a call of a wrapper built on one of the four adapters changes, in
    the database of its client, at most what is held under the derived
    key: every other key of that database is after the call what it was
    before it, whether the call hits, misses, or raises. *)
Theorem call_touches_one_key self args kwargs (w w1 : World) (k : string) (c : Redis) :
  builtin_adapter StoreType (cacheable (_cache_element self)) →
  _calculate_cache_key self args kwargs = Ok k →
  get_cache (_caching self) w = (Ok c, w1) →
  ∀ k', k' ≠ k →
    server_of (__call__ self args kwargs w).2 c !! k' = server_of w c !! k'.
Proof.
  intros Ha Hk Hc. change (same_elsewhere k c w (__call__ self args kwargs w).2).
  assert (H1 : same_elsewhere k c w w1).
  { apply same_elsewhere_servers.
    replace w1 with (get_cache (_caching self) w).2 by now rewrite Hc.
    apply get_cache_servers. }
  apply (same_elsewhere_trans _ _ _ _ _ H1). clear H1.
  pose proof (same_elsewhere_on k c _ w1 (get_value_touches_only (_cache_element self) k Ha))
    as H2.
  destruct (on c (get_value (_cache_element self) k) w1) as [[[v|]|err] w2] eqn:Hget;
    cbn [snd] in H2.
  - now rewrite (call_hit self args kwargs w w1 w2 k c v Hk Hc Hget).
  - rewrite (call_miss_cases self args kwargs w w1 w2 k c Hk Hc Hget).
    apply (same_elsewhere_trans _ _ _ _ _ H2). clear H2.
    destruct (body (_func self) args kwargs) as [v|err];
      [|now apply same_elsewhere_servers].
    pose proof (same_elsewhere_on k c _ (log (ECall (__name__ (_func self))) w2).2
                  (set_value_touches_only (_cache_element self) k v Ha)) as H3.
    assert (H3' : same_elsewhere k c w2
                    (on c (set_value (_cache_element self) k v)
                       (log (ECall (__name__ (_func self))) w2).2).2).
    { apply (same_elsewhere_trans _ _ _ (log (ECall (__name__ (_func self))) w2).2);
        [now apply same_elsewhere_servers | exact H3]. }
    clear H3.
    destruct (on c (set_value (_cache_element self) k v)
                (log (ECall (__name__ (_func self))) w2).2) as [[[]|err] w3];
      cbn [snd] in *; [|exact H3'].
    destruct (_calculate_expire_in self v args kwargs) as [t|err]; cbn [snd];
      [|exact H3'].
    apply (same_elsewhere_trans _ _ _ _ _ H3'), same_elsewhere_apply_ttl.
  - unfold __call__. se_unfold. now rewrite Hk, Hc, Hget.
Qed.

End CallEffects.

Lemma call_touches_one_key_witness :
  let w := (on test_client (Client.set "other" "kept")
              (get_cache test_caching fresh_world).2).2 in
  server_of (__call__ keyed_wrapper [PStr "123"] [] w).2 test_client !! "other"
  = Some (Engine.Entry (Engine.RString "kept") None).
Proof.
  intros w.
  assert (Hc : get_cache (_caching keyed_wrapper) w = (Ok test_client, w))
    by (vm_compute; reflexivity).
  rewrite (call_touches_one_key keyed_wrapper [PStr "123"] [] w w "cache-key"
             test_client builtin_string eq_refl Hc "other");
    [vm_compute; reflexivity | discriminate].
Defined.

Section CallErrors.
Context {Obj FetchType StoreType : Type}.
Context `{!PyObject Obj, !AsObject FetchType Obj}.
Implicit Types (self : CacheValueWrapper Obj FetchType StoreType).
Implicit Types (args : list Obj) (kwargs : kwargs_t Obj).

(** A call in a world whose registry and whose client database are those
    of an earlier world gets the value the earlier world would have given. *)
Lemma get_value_same_server (e : CacheElement FetchType StoreType) (k : string)
    (c : Redis) (w w' : World) :
  server_of w' c = server_of w c →
  (on c (get_value e k) w').1 = (on c (get_value e k) w).1.
Proof. intros Hs. rewrite !on_eq. cbn [fst]. now rewrite Hs. Qed.

(** X10: when the key holds a value the element's [load] cannot read (for
    [CacheDateTime], text that is not a datetime), the call raises the
    error of [load]: the wrapped function is not invoked to recompute the
    value, and with one of the four adapters the database is left as it
    was, so the next call meets the same value. *)
Theorem unloadable_value_raises self args kwargs (w w1 : World) (k : string) (c : Redis)
    (sv : StoreType) (err : exn) :
  _calculate_cache_key self args kwargs = Ok k →
  get_cache (_caching self) w = (Ok c, w1) →
  (fetch (cacheable (_cache_element self)) k (Session (server_of w1 c) [])).1
    = Ok (Some sv) →
  load (_cache_element self) sv = Err err →
  (__call__ self args kwargs w).1 = Err err
  ∧ calls (__name__ (_func self)) (trace (__call__ self args kwargs w).2)
    = calls (__name__ (_func self)) (trace w)
  ∧ (builtin_adapter StoreType (cacheable (_cache_element self)) →
     server_of (__call__ self args kwargs w).2 c = server_of w1 c).
Proof.
  intros Hk Hc Hfetch Hload.
  assert (Hget : (on c (get_value (_cache_element self) k) w1).1 = Err err).
  { rewrite on_eq. cbn [fst]. now rewrite get_value_result, Hfetch, Hload. }
  destruct (on c (get_value (_cache_element self) k) w1) as [r w2] eqn:Hon.
  cbn [fst] in Hget. subst r.
  assert (Hcall : __call__ self args kwargs w = (Err err, w2)).
  { unfold __call__. se_unfold. now rewrite Hk, Hc, Hon. }
  assert (Hw2 : w2 = (on c (get_value (_cache_element self) k) w1).2) by now rewrite Hon.
  rewrite Hcall. cbn [fst snd]. split; [reflexivity|]. split.
  - rewrite Hw2, calls_on.
    replace w1 with (get_cache (_caching self) w).2 by now rewrite Hc.
    apply calls_get_cache.
  - intros Ha. rewrite Hw2, on_server. now apply get_value_db.
Qed.

(** X11: when the wrapped function raises on a miss, the call raises that
    error and nothing is stored: no command follows the fetch, the
    databases are as the fetch left them, and with one of the four
    adapters the same call made again misses again and invokes the
    function again. *)
Theorem function_error_not_cached self args kwargs (w w1 w2 : World) (k : string)
    (c : Redis) (err : exn) :
  _calculate_cache_key self args kwargs = Ok k →
  get_cache (_caching self) w = (Ok c, w1) →
  on c (get_value (_cache_element self) k) w1 = (Ok None, w2) →
  body (_func self) args kwargs = Err err →
  let n := __name__ (_func self) in
  let after := (__call__ self args kwargs w).2 in
  (__call__ self args kwargs w).1 = Err err
  ∧ trace after = (trace w2 ++ [ECall n])%list
  ∧ servers after = servers w2
  ∧ (builtin_adapter StoreType (cacheable (_cache_element self)) →
     server_of after c = server_of w1 c
     ∧ calls n (trace (__call__ self args kwargs after).2) = S (S (calls n (trace w)))).
Proof.
  intros Hk Hc Hget Hbody n after.
  pose proof (call_miss_calls self args kwargs w w1 w2 k c Hk Hc Hget) as Hcalls.
  pose proof (call_instances self args kwargs w w1 k c Hk Hc) as Hinst.
  fold n in Hcalls. fold after in Hcalls, Hinst.
  assert (Hcall : __call__ self args kwargs w = (Err err, (log (ECall n) w2).2)).
  { rewrite (call_miss_cases self args kwargs w w1 w2 k c Hk Hc Hget). now rewrite Hbody. }
  assert (Hafter : after = (log (ECall n) w2).2) by (unfold after; now rewrite Hcall).
  rewrite Hcall. cbn [fst].
  split; [reflexivity|]. split; [now rewrite Hafter|]. split; [now rewrite Hafter|].
  intros Ha.
  assert (Hs : server_of after c = server_of w1 c).
  { rewrite Hafter. change (server_of w2 c = server_of w1 c).
    replace w2 with (on c (get_value (_cache_element self) k) w1).2 by now rewrite Hget.
    rewrite on_server. now apply get_value_db. }
  split; [exact Hs|].
  pose proof (get_cache_registered _ w w1 after c Hc Hinst) as Hc'.
  pose proof (get_value_same_server (_cache_element self) k c w1 after Hs) as Hsame.
  rewrite Hget in Hsame. cbn [fst] in Hsame.
  destruct (on c (get_value (_cache_element self) k) after) as [r w2'] eqn:Hget'.
  cbn [fst] in Hsame. subst r.
  rewrite (call_miss_calls self args kwargs after after w2' k c Hk Hc' Hget').
  fold n. now rewrite Hcalls.
Qed.

(** X12: a time-to-live that is truthy but under one second (a
    [timedelta] of half a second, a negative number) reaches the engine as
    an [EXPIRE] of zero or fewer seconds, which deletes the key: the call
    returns the fresh value, the key is gone when it returns, and with one
    of the four adapters the same call made again invokes the wrapped
    function again. *)
Theorem short_ttl_deletes self args kwargs (w w1 w2 w3 : World) (k : string)
    (c : Redis) (v : FetchType) (t : timeval) :
  _calculate_cache_key self args kwargs = Ok k →
  get_cache (_caching self) w = (Ok c, w1) →
  on c (get_value (_cache_element self) k) w1 = (Ok None, w2) →
  body (_func self) args kwargs = Ok v →
  on c (set_value (_cache_element self) k v) (log (ECall (__name__ (_func self))) w2).2
    = (Ok tt, w3) →
  _calculate_expire_in self v args kwargs = Ok (Some t) →
  truthy t = true →
  to_seconds t ≤ 0 →
  let n := __name__ (_func self) in
  let after := (__call__ self args kwargs w).2 in
  (__call__ self args kwargs w).1 = Ok v
  ∧ trace after = (trace w3 ++ [ECmd (r_id c) (EXPIRE k (to_seconds t))])%list
  ∧ server_of after c !! k = None
  ∧ (builtin_adapter StoreType (cacheable (_cache_element self)) →
     calls n (trace (__call__ self args kwargs after).2) = S (S (calls n (trace w)))).
Proof.
  intros Hk Hc Hget Hbody Hset Httl Htruthy Hshort n after.
  pose proof (call_miss_calls self args kwargs w w1 w2 k c Hk Hc Hget) as Hcalls.
  pose proof (call_instances self args kwargs w w1 k c Hk Hc) as Hinst.
  fold n in Hcalls. fold after in Hcalls, Hinst.
  assert (Hcall : __call__ self args kwargs w = (Ok v, (on c (Client.expire k t) w3).2)).
  { rewrite (call_miss self args kwargs w w1 w2 w3 k c v (Some t) Hk Hc Hget Hbody Hset Httl).
    unfold apply_ttl. now rewrite Htruthy. }
  assert (Hafter : after = (on c (Client.expire k t) w3).2) by (unfold after; now rewrite Hcall).
  assert (Hgone : server_of after c !! k = None).
  { rewrite Hafter, on_server. unfold Client.expire. rewrite update_db. cbn [s_db].
    unfold Engine.expire.
    destruct (server_of w3 c !! k) as [[x t0]|] eqn:Hk3; [|exact Hk3].
    destruct (Z.leb_spec (to_seconds t) 0); [apply lookup_delete_eq | lia]. }
  rewrite Hcall. cbn [fst].
  split; [reflexivity|]. split.
  { rewrite Hafter, on_eq. cbn [snd trace]. now rewrite expire_log. }
  split; [exact Hgone|].
  intros Ha.
  pose proof (get_cache_registered _ w w1 after c Hc Hinst) as Hc'.
  assert (Hmiss : (on c (get_value (_cache_element self) k) after).1 = Ok None).
  { rewrite on_eq. cbn [fst]. rewrite get_value_result.
    now rewrite (fetch_unset _ _ k (Session (server_of after c) []) Ha Hgone). }
  destruct (on c (get_value (_cache_element self) k) after) as [r w2'] eqn:Hget'.
  cbn [fst] in Hmiss. subst r.
  rewrite (call_miss_calls self args kwargs after after w2' k c Hk Hc' Hget').
  fold n. now rewrite Hcalls.
Qed.

(** X13: when the time-to-live of a call that missed cannot be computed
    (the [expire_in] function raises, or the caller passed a keyword
    [value], which cannot be bound), the call raises that error after the
    value has been stored: the world it leaves is the one the store left,
    no [EXPIRE] is sent, and with one of the four adapters the next call
    with the same key returns the stored value without invoking the
    wrapped function. *)
Theorem expire_in_error_keeps_value self args kwargs (w w1 w2 w3 : World) (k : string)
    (c : Redis) (v : FetchType) (err : exn) :
  _calculate_cache_key self args kwargs = Ok k →
  get_cache (_caching self) w = (Ok c, w1) →
  on c (get_value (_cache_element self) k) w1 = (Ok None, w2) →
  body (_func self) args kwargs = Ok v →
  on c (set_value (_cache_element self) k v) (log (ECall (__name__ (_func self))) w2).2
    = (Ok tt, w3) →
  _calculate_expire_in self v args kwargs = Err err →
  __call__ self args kwargs w = (Err err, w3)
  ∧ ((∃ passed, kwargs_get "value" kwargs = Some passed) ∧ err = multiple_values
     ∨ kwargs_get "value" kwargs = None
       ∧ ∃ f, _expire_in self = Computed f
              ∧ f args (kwargs ++ [("value", as_obj v)])%list = Err err)
  ∧ ∀ sv v' args' kwargs',
      builtin_adapter StoreType (cacheable (_cache_element self)) →
      dump (_cache_element self) v = Ok sv →
      load (_cache_element self) sv = Ok v' →
      _calculate_cache_key self args' kwargs' = Ok k →
      ∃ w5, __call__ self args' kwargs' w3 = (Ok v', w5)
            ∧ calls (__name__ (_func self)) (trace w5)
              = calls (__name__ (_func self)) (trace w3).
Proof.
  intros Hk Hc Hget Hbody Hset Httl. split; [|split].
  - rewrite (call_miss_cases self args kwargs w w1 w2 k c Hk Hc Hget).
    now rewrite Hbody, Hset, Httl.
  - unfold _calculate_expire_in in Httl.
    destruct (kwargs_get "value" kwargs) as [passed|] eqn:Hvalue.
    + left. split; [now exists passed | now injection Httl].
    + right. split; [reflexivity|].
      destruct (_expire_in self) as [t0|f]; [discriminate Httl|].
      exists f. split; [reflexivity|].
      now rewrite (kwargs_set_new "value" (as_obj v) kwargs Hvalue) in Httl.
  - intros sv v' args' kwargs' Ha Hdump Hload Hk'.
    destruct (call_after_miss self args' kwargs' w w1 w2 w3 k c v v' sv None
                Ha Hc Hget Hset Hdump Hload I Hk') as (w5 & Hcall & Hcalls & _).
    exists w5. split; [exact Hcall | exact Hcalls].
Qed.

(** X14: with one of the four adapters, a call that hits costs one
    command, a read of the key: it sends nothing else, changes no
    database, and so does not renew the key's time-to-live. *)
Theorem hit_is_one_read self args kwargs (w w1 : World) (k : string) (c : Redis)
    (sv : StoreType) (v : FetchType) :
  builtin_adapter StoreType (cacheable (_cache_element self)) →
  _calculate_cache_key self args kwargs = Ok k →
  get_cache (_caching self) w = (Ok c, w1) →
  (fetch (cacheable (_cache_element self)) k (Session (server_of w1 c) [])).1
    = Ok (Some sv) →
  load (_cache_element self) sv = Ok v →
  let after := (__call__ self args kwargs w).2 in
  (__call__ self args kwargs w).1 = Ok v
  ∧ (∃ cmd, trace after = (trace w1 ++ [ECmd (r_id c) cmd])%list
            ∧ is_write (ECmd (r_id c) cmd) = false)
  ∧ (∀ c', server_of after c' = server_of w c')
  ∧ Engine.ttl k (server_of after c) = Engine.ttl k (server_of w c).
Proof.
  intros Ha Hk Hc Hfetch Hload after.
  pose proof (on_eq c (get_value (_cache_element self) k) w1) as Hon.
  rewrite (get_value_some _ k _ sv v Hfetch Hload) in Hon.
  pose proof (call_hit self args kwargs w w1 _ k c v Hk Hc Hon) as Hcall.
  assert (Hafter : after = (on c (get_value (_cache_element self) k) w1).2)
    by (unfold after; now rewrite Hcall, Hon).
  assert (Hw1 : ∀ c', server_of w1 c' = server_of w c').
  { intros c'. replace w1 with (get_cache (_caching self) w).2 by now rewrite Hc.
    apply server_of_get_cache. }
  assert (Hservers : ∀ c', server_of after c' = server_of w c').
  { intros c'. rewrite <- Hw1, Hafter.
    destruct (decide (r_url c' = r_url c)) as [Hu|Hu].
    - unfold server_of at 1 2. rewrite Hu. fold (server_of (on c (get_value (_cache_element self) k) w1).2 c).
      fold (server_of w1 c). rewrite on_server. now apply get_value_db.
    - now apply on_server_other. }
  rewrite Hcall. cbn [fst].
  split; [reflexivity|]. split; [|split; [exact Hservers | now rewrite Hservers]].
  rewrite Hafter, on_eq. cbn [snd trace]. rewrite get_value_session.
  destruct (fetch_reads_only _ _ k (Session (server_of w1 c) []) Ha) as (_ & cmd & -> & Hw).
  exists cmd. split; [reflexivity | apply Hw].
Qed.

End CallErrors.

Lemma unloadable_value_raises_witness :
  let w := (on test_client (Client.set "cache-key" "string-value")
              (get_cache test_caching fresh_world).2).2 in
  (__call__ datetime_wrapper [] [] w).1
  = Err (ValueError "Invalid isoformat string: 'string-value'")
  ∧ calls "decorated_function" (trace (__call__ datetime_wrapper [] [] w).2) = 0%nat.
Proof.
  intros w.
  assert (Hc : get_cache (_caching datetime_wrapper) w = (Ok test_client, w))
    by (vm_compute; reflexivity).
  assert (Hfetch : (fetch (cacheable (_cache_element datetime_wrapper)) "cache-key"
                      (Session (server_of w test_client) [])).1 = Ok (Some "string-value"))
    by (vm_compute; reflexivity).
  assert (Hload : load (_cache_element datetime_wrapper) "string-value"
                  = Err (ValueError "Invalid isoformat string: 'string-value'"))
    by (vm_compute; reflexivity).
  destruct (unloadable_value_raises datetime_wrapper [] [] w w "cache-key" test_client
              "string-value" _ eq_refl Hc Hfetch Hload) as (Hraise & Hcalls & _).
  split; [exact Hraise|].
  etransitivity; [exact Hcalls | vm_compute; reflexivity].
Defined.

Lemma function_error_not_cached_witness :
  let first := __call__ failing_wrapper [PStr "123"] [] fresh_world in
  first.1 = Err (UserError "lookup failed")
  ∧ server_of first.2 test_client !! "cache-key" = None
  ∧ calls "decorated_function" (trace (__call__ failing_wrapper [PStr "123"] [] first.2).2)
    = 2%nat.
Proof.
  set (w1 := (get_cache test_caching fresh_world).2).
  set (w2 := (on test_client (get_value (_cache_element failing_wrapper) "cache-key") w1).2).
  assert (Hc : get_cache (_caching failing_wrapper) fresh_world = (Ok test_client, w1))
    by (vm_compute; reflexivity).
  assert (Hget : on test_client (get_value (_cache_element failing_wrapper) "cache-key") w1
                 = (Ok None, w2)) by (vm_compute; reflexivity).
  destruct (function_error_not_cached failing_wrapper [PStr "123"] [] fresh_world w1 w2
              "cache-key" test_client (UserError "lookup failed") eq_refl Hc Hget eq_refl)
    as (Hraise & _ & _ & Hagain).
  destruct (Hagain builtin_string) as [Hserver Hcalls].
  intros first. split; [exact Hraise|]. split; [|exact Hcalls].
  unfold first. rewrite Hserver. vm_compute; reflexivity.
Defined.

Lemma short_ttl_deletes_witness :
  let first := __call__ short_lived_wrapper [PInt 123] [] fresh_world in
  first.1 = Ok "string-value"
  ∧ server_of first.2 test_client !! "cache-key" = None
  ∧ calls "decorated_function"
      (trace (__call__ short_lived_wrapper [PInt 123] [] first.2).2) = 2%nat.
Proof.
  set (w1 := (get_cache test_caching fresh_world).2).
  set (w2 := (on test_client (get_value (_cache_element short_lived_wrapper) "cache-key") w1).2).
  set (w3 := (on test_client
                (set_value (_cache_element short_lived_wrapper) "cache-key" "string-value")
                (log (ECall "decorated_function") w2).2).2).
  assert (Hc : get_cache test_caching fresh_world = (Ok test_client, w1))
    by (vm_compute; reflexivity).
  assert (Hget : on test_client (get_value (_cache_element short_lived_wrapper) "cache-key") w1
                 = (Ok None, w2)) by (vm_compute; reflexivity).
  assert (Hset : on test_client
                   (set_value (_cache_element short_lived_wrapper) "cache-key" "string-value")
                   (log (ECall "decorated_function") w2).2
                 = (Ok tt, w3)) by (vm_compute; reflexivity).
  assert (Hshort : to_seconds (Timedelta 500000) ≤ 0) by (vm_compute; discriminate).
  destruct (short_ttl_deletes short_lived_wrapper [PInt 123] [] fresh_world w1 w2 w3
              "cache-key" test_client "string-value" (Timedelta 500000)
              eq_refl Hc Hget eq_refl Hset eq_refl eq_refl Hshort)
    as (Hcall & _ & Hgone & Hagain).
  intros first. split; [exact Hcall|]. split; [exact Hgone|].
  exact (Hagain builtin_string).
Defined.

Lemma expire_in_error_keeps_value_witness :
  let wrapper := expire_in keyed_wrapper failing_expires_in in
  let first := __call__ wrapper [PInt 123] [] fresh_world in
  first.1 = Err (UserError "no time-to-live")
  ∧ ∃ w5, __call__ wrapper [PInt 123] [] first.2 = (Ok "string-value", w5)
          ∧ calls "decorated_function" (trace w5) = 1%nat.
Proof.
  intros wrapper.
  set (w1 := (get_cache test_caching fresh_world).2).
  set (w2 := (on test_client (get_value (_cache_element wrapper) "cache-key") w1).2).
  set (w3 := (on test_client
                (set_value (_cache_element wrapper) "cache-key" "string-value")
                (log (ECall "decorated_function") w2).2).2).
  assert (Hc : get_cache test_caching fresh_world = (Ok test_client, w1))
    by (vm_compute; reflexivity).
  assert (Hget : on test_client (get_value (_cache_element wrapper) "cache-key") w1
                 = (Ok None, w2)) by (vm_compute; reflexivity).
  assert (Hset : on test_client
                   (set_value (_cache_element wrapper) "cache-key" "string-value")
                   (log (ECall "decorated_function") w2).2
                 = (Ok tt, w3)) by (vm_compute; reflexivity).
  destruct (expire_in_error_keeps_value wrapper [PInt 123] [] fresh_world w1 w2 w3
              "cache-key" test_client "string-value" (UserError "no time-to-live")
              eq_refl Hc Hget eq_refl Hset eq_refl) as (Hcall & _ & Hnext).
  destruct (Hnext "string-value" "string-value" [PInt 123] [] builtin_string
              eq_refl eq_refl eq_refl) as (w5 & Hcall2 & Hcalls2).
  intros first. unfold first. rewrite Hcall. cbn [fst snd].
  split; [reflexivity|]. exists w5. split; [exact Hcall2|].
  etransitivity; [exact Hcalls2 | vm_compute; reflexivity].
Defined.

Lemma hit_is_one_read_witness :
  let first := (__call__ expiring_wrapper [PInt 123] [] fresh_world).2 in
  let second := __call__ expiring_wrapper [PInt 123] [] first in
  second.1 = Ok "string-value"
  ∧ trace second.2 = (trace first ++ [ECmd 0 (GET "cache-key")])%list
  ∧ Engine.ttl "cache-key" (server_of second.2 test_client) = 12.
Proof.
  intros first second.
  assert (Hc : get_cache (_caching expiring_wrapper) first = (Ok test_client, first))
    by (vm_compute; reflexivity).
  assert (Hfetch : (fetch (cacheable (_cache_element expiring_wrapper)) "cache-key"
                      (Session (server_of first test_client) [])).1 = Ok (Some "string-value"))
    by (vm_compute; reflexivity).
  destruct (hit_is_one_read expiring_wrapper [PInt 123] [] first first "cache-key"
              test_client "string-value" "string-value" builtin_string eq_refl Hc Hfetch
              eq_refl) as (Hcall & _ & _ & Httl).
  split; [exact Hcall|]. split; [vm_compute; reflexivity|].
  unfold second. rewrite Httl. vm_compute; reflexivity.
Defined.

Lemma dict_store_db (k : string) (v : DictCacheType) (s : session) :
  v ≠ ∅ →
  s_db (store DictCacheable k v s).2
  = match Engine.hset k v (s_db s) with Ok d' => d' | Err _ => s_db s end.
Proof.
  intros Hv. cbn [store DictCacheable]. unfold Client.hset.
  replace (bool_decide (is_Some (@None (string * string)))) with false
    by (symmetry; apply bool_decide_eq_false; intros [? ?]; discriminate).
  cbn [negb andb truthy option_truthy].
  apply gmap_truthy_nonempty in Hv. rewrite Hv. cbn [negb default].
  rewrite (right_id_L ∅ (∪)). apply update_db.
Qed.

(** A store on a key that held nothing leaves the key without
    time-to-live. *)
Lemma store_fresh_no_ttl S (a : Cacheable S) (k : string) (v : S) (s : session) :
  builtin_adapter S a → unset k s → (store a k v s).1 = Ok tt →
  Engine.ttl k (s_db (store a k v s).2) = -1.
Proof.
  unfold unset, Engine.ttl. intros Ha Hk Hok. destruct Ha.
  - rewrite string_store. cbn. now rewrite lookup_insert_eq.
  - rewrite dict_string_store_db. unfold Engine.hset. rewrite Hk.
    case_bool_decide as He; [now apply map_non_empty_singleton in He|].
    now rewrite lookup_insert_eq.
  - destruct (dict_store_ok k v s Hok) as [Hv _].
    rewrite dict_store_db by assumption. unfold Engine.hset. rewrite Hk.
    case_bool_decide; [contradiction|]. now rewrite lookup_insert_eq.
  - assert (Hv : v ≠ []) by (intros ->; rewrite list_store_empty in Hok; discriminate).
    rewrite list_store_nonempty by assumption. cbn. now rewrite lookup_insert_eq.
Qed.

Section CallTtl.
Context {Obj FetchType StoreType : Type}.
Context `{!PyObject Obj, !AsObject FetchType Obj}.
Implicit Types (self : CacheValueWrapper Obj FetchType StoreType).
Implicit Types (args : list Obj) (kwargs : kwargs_t Obj).

(** X15: a time-to-live that is falsy ([None], [0], a zero [timedelta]) is
    not applied: the call ends with the store, no [EXPIRE] is sent, and
    with one of the four adapters a key that held nothing before the call
    is left without time-to-live, so the value never expires. *)
Theorem falsy_ttl_not_applied self args kwargs (w w1 w2 w3 : World) (k : string)
    (c : Redis) (v : FetchType) (t : option timeval) :
  _calculate_cache_key self args kwargs = Ok k →
  get_cache (_caching self) w = (Ok c, w1) →
  on c (get_value (_cache_element self) k) w1 = (Ok None, w2) →
  body (_func self) args kwargs = Ok v →
  on c (set_value (_cache_element self) k v) (log (ECall (__name__ (_func self))) w2).2
    = (Ok tt, w3) →
  _calculate_expire_in self v args kwargs = Ok t →
  truthy t = false →
  __call__ self args kwargs w = (Ok v, w3)
  ∧ (∀ sv, builtin_adapter StoreType (cacheable (_cache_element self)) →
           dump (_cache_element self) v = Ok sv →
           server_of w1 c !! k = None →
           Engine.ttl k (server_of w3 c) = -1).
Proof.
  intros Hk Hc Hget Hbody Hset Httl Hfalsy. split.
  - rewrite (call_miss self args kwargs w w1 w2 w3 k c v t Hk Hc Hget Hbody Hset Httl).
    unfold apply_ttl. destruct t as [t|]; [|reflexivity].
    cbn [truthy option_truthy] in Hfalsy.
    change (truthy t = false) in Hfalsy. now rewrite Hfalsy.
  - intros sv Ha Hdump Hunset.
    set (wl := (log (ECall (__name__ (_func self))) w2).2) in *.
    assert (Hs2 : server_of wl c = server_of w1 c).
    { change (server_of w2 c = server_of w1 c).
      replace w2 with (on c (get_value (_cache_element self) k) w1).2 by now rewrite Hget.
      rewrite on_server. now apply get_value_db. }
    assert (Hok : (on c (set_value (_cache_element self) k v) wl).1 = Ok tt)
      by now rewrite Hset.
    assert (Hw3 : w3 = (on c (set_value (_cache_element self) k v) wl).2)
      by now rewrite Hset.
    rewrite on_eq in Hok. cbn [fst] in Hok. rewrite Hs2 in Hok.
    rewrite Hw3, on_server, Hs2.
    rewrite (set_value_dumped _ k v sv _ Hdump) in Hok |- *.
    now apply store_fresh_no_ttl.
Qed.

End CallTtl.

Lemma falsy_ttl_not_applied_witness :
  let first := __call__ zero_ttl_wrapper [PInt 123] [] fresh_world in
  first.1 = Ok "string-value"
  ∧ Engine.ttl "cache-key" (server_of first.2 test_client) = -1.
Proof.
  set (w1 := (get_cache test_caching fresh_world).2).
  set (w2 := (on test_client (get_value (_cache_element zero_ttl_wrapper) "cache-key") w1).2).
  set (w3 := (on test_client
                (set_value (_cache_element zero_ttl_wrapper) "cache-key" "string-value")
                (log (ECall "decorated_function") w2).2).2).
  assert (Hc : get_cache test_caching fresh_world = (Ok test_client, w1))
    by (vm_compute; reflexivity).
  assert (Hget : on test_client (get_value (_cache_element zero_ttl_wrapper) "cache-key") w1
                 = (Ok None, w2)) by (vm_compute; reflexivity).
  assert (Hset : on test_client
                   (set_value (_cache_element zero_ttl_wrapper) "cache-key" "string-value")
                   (log (ECall "decorated_function") w2).2
                 = (Ok tt, w3)) by (vm_compute; reflexivity).
  destruct (falsy_ttl_not_applied zero_ttl_wrapper [PInt 123] [] fresh_world w1 w2 w3
              "cache-key" test_client "string-value" (Some (Seconds 0))
              eq_refl Hc Hget eq_refl Hset eq_refl eq_refl) as (Hcall & Httl).
  intros first. unfold first. rewrite Hcall. cbn [fst snd].
  split; [reflexivity|].
  apply (Httl "string-value" builtin_string eq_refl). vm_compute; reflexivity.
Defined.

Section ListResults.
Context {Obj FetchType : Type}.
Context `{!PyObject Obj, !AsObject FetchType Obj}.
Implicit Types (self : CacheValueWrapper Obj FetchType ListCacheType).
Implicit Types (args : list Obj) (kwargs : kwargs_t Obj).

(** X16: a function memoized through the list adapter that returns the
    empty list is never cached: on a miss the wrapped function is invoked,
    the store of the empty list is refused by the engine, and the call
    raises that error instead of returning the list; the key is then unset,
    so the same call made again invokes the function again. *)
Theorem empty_list_result_raises self args kwargs (w w1 w2 : World) (k : string)
    (c : Redis) (v : FetchType) :
  cacheable (_cache_element self) = ListCacheable →
  _calculate_cache_key self args kwargs = Ok k →
  get_cache (_caching self) w = (Ok c, w1) →
  on c (get_value (_cache_element self) k) w1 = (Ok None, w2) →
  body (_func self) args kwargs = Ok v →
  dump (_cache_element self) v = Ok [] →
  let n := __name__ (_func self) in
  let after := (__call__ self args kwargs w).2 in
  (__call__ self args kwargs w).1 = Err (Engine.wrong_arity "rpush")
  ∧ server_of after c !! k = None
  ∧ calls n (trace (__call__ self args kwargs after).2) = S (S (calls n (trace w))).
Proof.
  intros Hlist Hk Hc Hget Hbody Hdump n after.
  pose proof (call_miss_calls self args kwargs w w1 w2 k c Hk Hc Hget) as Hcalls.
  pose proof (call_instances self args kwargs w w1 k c Hk Hc) as Hinst.
  fold n in Hcalls. fold after in Hcalls, Hinst.
  set (wl := (log (ECall n) w2).2).
  pose proof (on_eq c (set_value (_cache_element self) k v) wl) as Hon.
  rewrite (set_value_dumped _ k v [] _ Hdump), Hlist, list_store_empty in Hon.
  cbn [fst snd s_db s_log] in Hon.
  destruct (on c (set_value (_cache_element self) k v) wl) as [r w3] eqn:Hset.
  injection Hon as -> Hw3.
  assert (Hcall : __call__ self args kwargs w = (Err (Engine.wrong_arity "rpush"), w3)).
  { rewrite (call_miss_cases self args kwargs w w1 w2 k c Hk Hc Hget), Hbody.
    fold n wl. now rewrite Hset. }
  assert (Hgone : server_of after c !! k = None).
  { unfold after. rewrite Hcall. cbn [snd]. subst w3. unfold server_of at 1.
    cbn [servers]. rewrite lookup_insert_eq. cbn [default]. apply lookup_delete_eq. }
  split; [|split; [exact Hgone|]].
  - now rewrite Hcall.
  - pose proof (get_cache_registered _ w w1 after c Hc Hinst) as Hc'.
    assert (Hmiss : (on c (get_value (_cache_element self) k) after).1 = Ok None).
    { rewrite on_eq. cbn [fst]. rewrite get_value_result, Hlist.
      now rewrite (fetch_unset _ _ k (Session (server_of after c) []) builtin_list Hgone). }
    destruct (on c (get_value (_cache_element self) k) after) as [r w2'] eqn:Hget'.
    cbn [fst] in Hmiss. subst r.
    rewrite (call_miss_calls self args kwargs after after w2' k c Hk Hc' Hget').
    fold n. now rewrite Hcalls.
Qed.

End ListResults.

Lemma empty_list_result_raises_witness :
  let first := __call__ empty_list_wrapper [] [] fresh_world in
  first.1 = Err (Engine.wrong_arity "rpush")
  ∧ calls "decorated_function" (trace (__call__ empty_list_wrapper [] [] first.2).2) = 2%nat.
Proof.
  set (w1 := (get_cache test_caching fresh_world).2).
  set (w2 := (on test_client (get_value (_cache_element empty_list_wrapper) "cache-key") w1).2).
  assert (Hc : get_cache (_caching empty_list_wrapper) fresh_world = (Ok test_client, w1))
    by (vm_compute; reflexivity).
  assert (Hget : on test_client (get_value (_cache_element empty_list_wrapper) "cache-key") w1
                 = (Ok None, w2)) by (vm_compute; reflexivity).
  destruct (empty_list_result_raises empty_list_wrapper [] [] fresh_world w1 w2
              "cache-key" test_client [] eq_refl eq_refl Hc Hget eq_refl eq_refl)
    as (Hraise & _ & Hagain).
  intros first. split; [exact Hraise | exact Hagain].
Defined.

Section Invalidate.
Context {Obj FetchType StoreType : Type}.
Context `{!PyObject Obj, !AsObject FetchType Obj}.
Implicit Types (self : CacheValueWrapper Obj FetchType StoreType).
Implicit Types (args : list Obj) (kwargs : kwargs_t Obj).

(** X17: the holder's [delete(cache_key)] sends one [DEL] through the
    holder's client and completes; the key is then unset, whatever kind of
    value it held, and every other key is as before; so with one of the
    four adapters the next call of a wrapper of that holder that derives
    this key misses and invokes the wrapped function. *)
Theorem delete_invalidates self args kwargs (w w1 : World) (k : string) (c : Redis) :
  get_cache (_caching self) w = (Ok c, w1) →
  let n := __name__ (_func self) in
  let after := (RedisCaching_delete (_caching self) k w).2 in
  (RedisCaching_delete (_caching self) k w).1 = Ok tt
  ∧ trace after = (trace w1 ++ [ECmd (r_id c) (DEL k)])%list
  ∧ server_of after c !! k = None
  ∧ (∀ k', k' ≠ k → server_of after c !! k' = server_of w c !! k')
  ∧ (builtin_adapter StoreType (cacheable (_cache_element self)) →
     _calculate_cache_key self args kwargs = Ok k →
     calls n (trace (__call__ self args kwargs after).2) = S (calls n (trace after))).
Proof.
  intros Hc n after.
  assert (Hdel : RedisCaching_delete (_caching self) k w = on c (Client.delete k) w1).
  { unfold RedisCaching_delete. se_unfold. now rewrite Hc. }
  assert (Hafter : after = (on c (Client.delete k) w1).2) by (unfold after; now rewrite Hdel).
  assert (Hgone : server_of after c !! k = None).
  { rewrite Hafter, on_server. unfold Client.delete. rewrite update_db. cbn.
    apply lookup_delete_eq. }
  rewrite Hdel. split; [reflexivity|]. split; [now rewrite Hafter|].
  split; [exact Hgone|]. split.
  - intros k' Hne. rewrite Hafter, on_server, (delete_touches_only k _ k' Hne). cbn [s_db].
    replace w1 with (get_cache (_caching self) w).2 by now rewrite Hc.
    now rewrite server_of_get_cache.
  - intros Ha Hk.
    assert (Hc' : get_cache (_caching self) after = (Ok c, after)).
    { apply (get_cache_registered _ w w1 after c Hc). rewrite Hafter. apply on_instances. }
    assert (Hmiss : (on c (get_value (_cache_element self) k) after).1 = Ok None).
    { rewrite on_eq. cbn [fst]. rewrite get_value_result.
      now rewrite (fetch_unset _ _ k (Session (server_of after c) []) Ha Hgone). }
    destruct (on c (get_value (_cache_element self) k) after) as [r w2'] eqn:Hget'.
    cbn [fst] in Hmiss. subst r.
    exact (call_miss_calls self args kwargs after after w2' k c Hk Hc' Hget').
Qed.

(** Joining with a separator cannot tell one part that contains the
    separator from two parts. *)
Lemma join_cons (sep x y : string) (l : list string) :
  join sep (x :: y :: l) = x +:+ sep +:+ join sep (y :: l).
Proof. reflexivity. Qed.

Lemma join_split (sep a b : string) (l1 l2 : list string) :
  join sep (l1 ++ (a +:+ sep +:+ b) :: l2) = join sep (l1 ++ a :: b :: l2).
Proof.
  induction l1 as [|x l1 IH].
  - cbn [app]. rewrite join_cons. destruct l2 as [|y l2]; [reflexivity|].
    rewrite !join_cons. now rewrite !append_assoc.
  - cbn [app]. destruct l1 as [|x' l1].
    + cbn [app] in *. rewrite (join_cons sep x a). rewrite <- IH. reflexivity.
    + cbn [app] in *. rewrite !(join_cons sep x x'). now rewrite IH.
Qed.

(** X18: the default key tells calls apart only by the [str] of their
    positional arguments, joined without escaping: arguments with the same
    [str] (the number 123 and the text "123") give the same key, and a
    positional argument whose [str] is [s1:s2] gives the key of the two
    arguments [s1], [s2] in its place; such calls share one cache entry. *)
Theorem default_key_collision self kwargs :
  _get_cache_key self = None →
  (∀ args args',
     obj_str <$> args = obj_str <$> args' →
     _calculate_cache_key self args kwargs = _calculate_cache_key self args' kwargs)
  ∧ (∀ (x y z : Obj) (before rest : list Obj),
       obj_str x = obj_str y +:+ ":" +:+ obj_str z →
       _calculate_cache_key self (before ++ x :: rest) kwargs
       = _calculate_cache_key self (before ++ y :: z :: rest) kwargs).
Proof.
  intros Hnone. unfold _calculate_cache_key. rewrite Hnone. split.
  - intros args args' Hstr. now rewrite Hstr.
  - intros x y z before rest Hx.
    rewrite !fmap_app, !fmap_cons, Hx.
    set (name := __name__ (_func self)). set (kw := str_kwargs kwargs).
    set (pre := obj_str <$> before). set (post := obj_str <$> rest).
    replace ([name] ++ (pre ++ (obj_str y +:+ ":" +:+ obj_str z) :: post) ++ [kw])%list
      with (([name] ++ pre) ++ (obj_str y +:+ ":" +:+ obj_str z) :: (post ++ [kw]))%list
      by (rewrite <- !app_assoc; reflexivity).
    replace ([name] ++ (pre ++ obj_str y :: obj_str z :: post) ++ [kw])%list
      with (([name] ++ pre) ++ obj_str y :: obj_str z :: (post ++ [kw]))%list
      by (rewrite <- !app_assoc; reflexivity).
    now rewrite join_split.
Qed.

End Invalidate.

Lemma delete_invalidates_witness :
  let first := (__call__ keyed_wrapper [PStr "123"] [] fresh_world).2 in
  let deleted := (RedisCaching_delete test_caching "cache-key" first).2 in
  Engine.contains "cache-key" (server_of first test_client) = true
  ∧ server_of deleted test_client !! "cache-key" = None
  ∧ calls "decorated_function" (trace (__call__ keyed_wrapper [PStr "123"] [] deleted).2)
    = 2%nat.
Proof.
  intros first deleted.
  assert (Hc : get_cache (_caching keyed_wrapper) first = (Ok test_client, first))
    by (vm_compute; reflexivity).
  destruct (delete_invalidates keyed_wrapper [PStr "123"] [] first first "cache-key"
              test_client Hc) as (_ & _ & Hgone & _ & Hagain).
  split; [vm_compute; reflexivity|]. split; [exact Hgone|].
  etransitivity; [exact (Hagain builtin_string eq_refl) | vm_compute; reflexivity].
Defined.

Lemma default_key_collision_witness :
  _calculate_cache_key unkeyed_wrapper [PInt 123; PStr "abc"] []
  = _calculate_cache_key unkeyed_wrapper [PStr "123"; PStr "abc"] []
  ∧ _calculate_cache_key unkeyed_wrapper [PStr "123:abc"] []
    = _calculate_cache_key unkeyed_wrapper [PStr "123"; PStr "abc"] []
  ∧ _calculate_cache_key unkeyed_wrapper [PStr "123:abc"] []
    = Ok "redis_decorators:decorated_function:123:abc:{}".
Proof.
  destruct (default_key_collision unkeyed_wrapper [] eq_refl) as [Hstr Hsplit].
  split; [|split; [|reflexivity]].
  - apply Hstr. reflexivity.
  - apply (Hsplit (PStr "123:abc") (PStr "123") (PStr "abc") [] []). reflexivity.
Defined.

(* ===================================================================== *)
(** ** Further properties of the connection holder                        *)
(* ===================================================================== *)

Lemma registry_ok_same (w w' : World) :
  cache_instances w' = cache_instances w → next_id w' = next_id w →
  registry_ok w → registry_ok w'.
Proof. unfold registry_ok. intros -> ->. auto. Qed.

Lemma registry_ok_get_cache (h : RedisCaching) (w : World) :
  registry_ok w → registry_ok (get_cache h w).2.
Proof.
  intros Hok.
  destruct (get_cache_cases h w) as [(c0 & Hc & Heq)|[(Hc & _ & Heq)|(_ & e & Heq)]];
    rewrite Heq; cbn [snd]; try exact Hok.
  set (c0 := {| r_id := next_id w; r_cls := cls_name (cache_cls h);
                r_url := _url h; r_kwargs := _cache_kwargs h |}).
  intros u c. cbn [cache_instances next_id].
  destruct (decide (u = _url h)) as [->|Hu].
  - rewrite lookup_insert_eq. intros [= <-]. cbn [r_url r_id c0].
    split; [reflexivity | split; [lia|]].
    intros u' c'. destruct (decide (u' = _url h)) as [->|Hu']; [reflexivity|].
    rewrite lookup_insert_ne by congruence. intros Hc' Hid.
    destruct (Hok u' c' Hc') as (_ & Hlt & _). lia.
  - rewrite lookup_insert_ne by congruence. intros Hcu.
    destruct (Hok u c Hcu) as (Hurl & Hlt & Hinj).
    split; [exact Hurl | split; [lia|]].
    intros u' c'. destruct (decide (u' = _url h)) as [->|Hu'].
    + rewrite lookup_insert_eq. intros [= <-]. cbn [r_id c0]. lia.
    + rewrite lookup_insert_ne by congruence. apply Hinj.
Qed.

Lemma on_next_id {A} (c : Redis) (m : R A) (w : World) :
  next_id (on c m w).2 = next_id w.
Proof. now rewrite on_eq. Qed.

Lemma registry_ok_on {A} (c : Redis) (m : R A) (w : World) :
  registry_ok w → registry_ok (on c m w).2.
Proof. apply registry_ok_same; [apply on_instances | apply on_next_id]. Qed.

Lemma registry_ok_apply_ttl (c : Redis) (k : string) (t : option timeval) (w : World) :
  registry_ok w → registry_ok (apply_ttl c k t w).2.
Proof.
  unfold apply_ttl. destruct t as [t|]; [destruct (truthy t)|]; try (intros H; exact H).
  apply registry_ok_on.
Qed.

Lemma registry_ok_perform (a : activity) (w : World) :
  registry_ok w → registry_ok (perform a w).2.
Proof.
  intros Hok. destruct a as [h|c m|name]; cbn [perform].
  - pose proof (registry_ok_get_cache h w Hok) as Hg.
    unfold mbind, SE_bind, mret, SE_ret.
    destruct (get_cache h w) as [[x|e] w']; exact Hg.
  - now apply registry_ok_on.
  - exact Hok.
Qed.

Section Registry.
Context {Obj FetchType StoreType : Type}.
Context `{!PyObject Obj, !AsObject FetchType Obj}.
Implicit Types (self : CacheValueWrapper Obj FetchType StoreType).
Implicit Types (args : list Obj) (kwargs : kwargs_t Obj).

Lemma registry_ok_call self args kwargs (w : World) :
  registry_ok w → registry_ok (__call__ self args kwargs w).2.
Proof.
  intros Hok.
  destruct (_calculate_cache_key self args kwargs) as [k|err] eqn:Hk;
    [|unfold __call__; se_unfold; now rewrite Hk].
  pose proof (registry_ok_get_cache (_caching self) w Hok) as H1.
  destruct (get_cache (_caching self) w) as [[c|err] w1] eqn:Hc; cbn [snd] in H1;
    [|unfold __call__; se_unfold; now rewrite Hk, Hc].
  pose proof (registry_ok_on c (get_value (_cache_element self) k) w1 H1) as H2.
  destruct (on c (get_value (_cache_element self) k) w1) as [[[v|]|err] w2] eqn:Hget;
    cbn [snd] in H2.
  - now rewrite (call_hit self args kwargs w w1 w2 k c v Hk Hc Hget).
  - rewrite (call_miss_cases self args kwargs w w1 w2 k c Hk Hc Hget).
    destruct (body (_func self) args kwargs) as [v|err]; [|exact H2].
    pose proof (registry_ok_on c (set_value (_cache_element self) k v)
                  (log (ECall (__name__ (_func self))) w2).2 H2) as H3.
    destruct (on c (set_value (_cache_element self) k v)
                (log (ECall (__name__ (_func self))) w2).2) as [[[]|err] w3];
      cbn [snd] in *; [|exact H3].
    destruct (_calculate_expire_in self v args kwargs) as [t|err]; cbn [snd];
      [|exact H3].
    now apply registry_ok_apply_ttl.
  - unfold __call__. se_unfold. now rewrite Hk, Hc, Hget.
Qed.

(** X19: the process-wide registry of clients is well formed at start and
    stays so through everything the package does ([get_cache] of any
    holder, commands on any client, invocations, calls of any wrapper):
    every client is registered under the URL it was built from, no client
    is registered under two URLs, and so holders of different URLs never
    share a client. *)
Theorem registry_invariant :
  registry_ok fresh_world
  ∧ (∀ acts w, registry_ok w → registry_ok (activities acts w))
  ∧ (∀ self args kwargs w, registry_ok w → registry_ok (__call__ self args kwargs w).2)
  ∧ (∀ w h h' c c' w1 w2,
       registry_ok w →
       get_cache h w = (Ok c, w1) → get_cache h' w1 = (Ok c', w2) →
       _url h ≠ _url h' → r_id c ≠ r_id c').
Proof.
  split; [|split; [|split]].
  - intros u c Hu. cbn in Hu. now rewrite lookup_empty in Hu.
  - intros acts. induction acts as [|a acts IH]; intros w Hok; cbn [activities];
      [exact Hok|].
    apply IH. now apply registry_ok_perform.
  - intros self args kwargs w. apply registry_ok_call.
  - intros w h h' c c' w1 w2 Hok Hc Hc' Hne Hid.
    assert (Hok2 : registry_ok w2).
    { replace w2 with (get_cache h' w1).2 by now rewrite Hc'.
      apply registry_ok_get_cache.
      replace w1 with (get_cache h w).2 by now rewrite Hc.
      now apply registry_ok_get_cache. }
    pose proof (get_cache_registers h w w1 c Hc) as Hr1.
    pose proof (get_cache_registers h' w1 w2 c' Hc') as Hr2.
    assert (Hr1' : cache_instances w2 !! _url h = Some c).
    { replace w2 with (get_cache h' w1).2 by now rewrite Hc'.
      now apply get_cache_keeps. }
    destruct (Hok2 (_url h') c' Hr2) as (_ & _ & Hinj).
    apply Hne. now apply (Hinj (_url h) c Hr1').
Qed.

End Registry.

Lemma registry_invariant_witness :
  let h := RedisCaching_new FakeRedis (Some "redis://a") ∅ in
  let h' := RedisCaching_new FakeRedis (Some "redis://b") ∅ in
  let w := activities [GetCache test_caching; Commands test_client (Client.set "k" "v")]
             fresh_world in
  ∃ c c', (get_cache h w).1 = Ok c
          ∧ (get_cache h' (get_cache h w).2).1 = Ok c'
          ∧ r_id c ≠ r_id c'.
Proof.
  intros h h' w.
  destruct (@registry_invariant scalar string string _ _) as (Hfresh & Hacts & _ & Hdistinct).
  assert (Hok : registry_ok w) by (apply Hacts, Hfresh).
  set (c := {| r_id := 1; r_cls := "FakeRedis"; r_url := Some "redis://a";
               r_kwargs := _default_cache_kwargs |}).
  set (c' := {| r_id := 2; r_cls := "FakeRedis"; r_url := Some "redis://b";
                r_kwargs := _default_cache_kwargs |}).
  assert (Hc : get_cache h w = (Ok c, (get_cache h w).2)) by (vm_compute; reflexivity).
  assert (Hc' : get_cache h' (get_cache h w).2
                = (Ok c', (get_cache h' (get_cache h w).2).2)) by (vm_compute; reflexivity).
  exists c, c'.
  split; [vm_compute; reflexivity|]. split; [vm_compute; reflexivity|].
  apply (Hdistinct w h h' c c' _ _ Hok Hc Hc'). discriminate.
Defined.

(** X20: the client a holder constructs carries the keyword arguments the
    holder was created with, laid over the defaults: a keyword that was
    passed wins, and [decode_responses=True] and [socket_timeout=15] apply
    where it was not; the client is of the holder's client class and is
    built from the holder's URL. *)
Theorem client_carries_kwargs (cls : cache_class) (u : url) (kwargs : gmap string scalar)
    (w w' : World) (c : Redis) :
  cache_instances w !! u = None →
  get_cache (RedisCaching_new cls u kwargs) w = (Ok c, w') →
  r_cls c = cls_name cls
  ∧ r_url c = u
  ∧ (∀ key x, kwargs !! key = Some x → r_kwargs c !! key = Some x)
  ∧ (kwargs !! "decode_responses" = None →
     r_kwargs c !! "decode_responses" = Some (PBool true))
  ∧ (kwargs !! "socket_timeout" = None →
     r_kwargs c !! "socket_timeout" = Some (PInt 15))
  ∧ (∀ key, r_kwargs c !! key = None ↔
            kwargs !! key = None ∧ key ≠ "decode_responses" ∧ key ≠ "socket_timeout").
Proof.
  intros Hnone Hc.
  destruct (get_cache_cases (RedisCaching_new cls u kwargs) w)
    as [(c0 & Hc0 & _)|[(_ & _ & Heq)|(_ & e & Heq)]].
  - cbn in Hc0. congruence.
  - rewrite Heq in Hc. injection Hc as <- _. cbn [r_cls r_url r_kwargs RedisCaching_new init
      cache_cls _url _cache_kwargs].
    split; [reflexivity | split; [reflexivity | split; [|split; [|split]]]].
    + intros key x Hk. now apply lookup_union_Some_l.
    + intros Hk. rewrite lookup_union_r by assumption. reflexivity.
    + intros Hk. rewrite lookup_union_r by assumption. reflexivity.
    + intros key. rewrite lookup_union_None. unfold _default_cache_kwargs.
      rewrite lookup_insert_None, lookup_singleton_None. intuition congruence.
  - rewrite Heq in Hc. discriminate Hc.
Qed.

Lemma client_carries_kwargs_witness :
  let h := RedisCaching_new FakeRedis None {[ "socket_timeout" := PInt 1 ]} in
  ∃ c, (get_cache h fresh_world).1 = Ok c
       ∧ r_kwargs c !! "socket_timeout" = Some (PInt 1)
       ∧ r_kwargs c !! "decode_responses" = Some (PBool true).
Proof.
  intros h.
  destruct (get_cache h fresh_world) as [r w'] eqn:Hc.
  assert (Hr : ∃ c, r = Ok c).
  { replace r with (get_cache h fresh_world).1 by now rewrite Hc.
    eexists. vm_compute. reflexivity. }
  destruct Hr as [c ->]. exists c. cbn [fst].
  destruct (client_carries_kwargs FakeRedis None {[ "socket_timeout" := PInt 1 ]}
              fresh_world w' c eq_refl Hc) as (_ & _ & Hpassed & Hdecode & _).
  split; [reflexivity|]. split.
  - apply Hpassed. apply lookup_singleton_eq.
  - apply Hdecode. apply lookup_singleton_ne. discriminate.
Defined.

(* ===================================================================== *)
(** ** A keyword named [value]                                            *)
(* ===================================================================== *)

Section ValueKeyword.
Context {Obj FetchType StoreType : Type}.
Context `{!PyObject Obj, !AsObject FetchType Obj}.
Implicit Types (self : CacheValueWrapper Obj FetchType StoreType).
Implicit Types (args : list Obj) (kwargs : kwargs_t Obj).

(** X21: a call that passes a keyword [value] and misses invokes the
    wrapped function and stores its result, and then raises [TypeError]
    where it would return: the result cannot be bound to the parameter
    [value] of [_calculate_expire_in] next to the caller's keyword,
    whatever [expire_in] is configured, even none.  No [EXPIRE] is sent,
    and with one of the four adapters the same call made again finds the
    stored value and returns it without invoking the wrapped function. *)
Theorem value_keyword_raises self args kwargs (w w1 w2 w3 : World) (k : string)
    (c : Redis) (v : FetchType) (passed : Obj) :
  kwargs_get "value" kwargs = Some passed →
  _calculate_cache_key self args kwargs = Ok k →
  get_cache (_caching self) w = (Ok c, w1) →
  on c (get_value (_cache_element self) k) w1 = (Ok None, w2) →
  body (_func self) args kwargs = Ok v →
  on c (set_value (_cache_element self) k v) (log (ECall (__name__ (_func self))) w2).2
    = (Ok tt, w3) →
  _calculate_expire_in self v args kwargs = Err multiple_values
  ∧ __call__ self args kwargs w = (Err multiple_values, w3)
  ∧ ∀ sv v',
      builtin_adapter StoreType (cacheable (_cache_element self)) →
      dump (_cache_element self) v = Ok sv →
      load (_cache_element self) sv = Ok v' →
      ∃ w5, __call__ self args kwargs w3 = (Ok v', w5)
            ∧ calls (__name__ (_func self)) (trace w5)
              = calls (__name__ (_func self)) (trace w3).
Proof.
  intros Hvalue Hk Hc Hget Hbody Hset.
  assert (Httl : _calculate_expire_in self v args kwargs = Err multiple_values).
  { unfold _calculate_expire_in. now rewrite Hvalue. }
  split; [exact Httl|]. split.
  - rewrite (call_miss_cases self args kwargs w w1 w2 k c Hk Hc Hget).
    now rewrite Hbody, Hset, Httl.
  - intros sv v' Ha Hdump Hload.
    destruct (call_after_miss self args kwargs w w1 w2 w3 k c v v' sv None
                Ha Hc Hget Hset Hdump Hload I Hk) as (w5 & Hcall & Hcalls & _).
    exists w5. split; [exact Hcall | exact Hcalls].
Qed.

End ValueKeyword.

Lemma value_keyword_raises_witness :
  let kwargs := [("arg", PInt 2); ("value", PInt 1)] in
  let first := __call__ expiring_wrapper [] kwargs fresh_world in
  first.1 = Err multiple_values
  ∧ Engine.ttl "cache-key" (server_of first.2 test_client) = -1
  ∧ ∃ w5, __call__ expiring_wrapper [] kwargs first.2 = (Ok "string-value", w5)
          ∧ calls "decorated_function" (trace w5) = 1%nat.
Proof.
  intros kwargs.
  set (w1 := (get_cache test_caching fresh_world).2).
  set (w2 := (on test_client (get_value (_cache_element expiring_wrapper) "cache-key") w1).2).
  set (w3 := (on test_client
                (set_value (_cache_element expiring_wrapper) "cache-key" "string-value")
                (log (ECall "decorated_function") w2).2).2).
  assert (Hc : get_cache test_caching fresh_world = (Ok test_client, w1))
    by (vm_compute; reflexivity).
  assert (Hget : on test_client (get_value (_cache_element expiring_wrapper) "cache-key") w1
                 = (Ok None, w2)) by (vm_compute; reflexivity).
  assert (Hset : on test_client
                   (set_value (_cache_element expiring_wrapper) "cache-key" "string-value")
                   (log (ECall "decorated_function") w2).2
                 = (Ok tt, w3)) by (vm_compute; reflexivity).
  destruct (value_keyword_raises expiring_wrapper [] kwargs fresh_world w1 w2 w3
              "cache-key" test_client "string-value" (PInt 1)
              eq_refl eq_refl Hc Hget eq_refl Hset) as (_ & Hcall & Hnext).
  destruct (Hnext "string-value" "string-value" builtin_string eq_refl eq_refl)
    as (w5 & Hcall2 & Hcalls2).
  intros first. unfold first. rewrite Hcall. cbn [fst snd].
  split; [reflexivity|]. split; [vm_compute; reflexivity|].
  exists w5. split; [exact Hcall2|].
  etransitivity; [exact Hcalls2 | vm_compute; reflexivity].
Defined.

(* ===================================================================== *)
(** ** The old wrapper and the current one                                *)
(* ===================================================================== *)

Section OldAndNew.
Context {Obj FetchType StoreType : Type}.
Context `{!PyObject Obj, !AsObject FetchType Obj}.

(** X22: with a key function and no time-to-live configured, and for a
    call that passes no keyword [value], the current wrapper does what the
    wrapper of the old package does with the holder's client: once the
    holder's client is registered, a call of the one and a call of the
    other, on the same function, element and key function, return the same
    result and leave the same world, command for command. *)
Theorem legacy_call_agrees (new : CacheValueWrapper Obj FetchType StoreType)
    (old : Legacy.CacheValue Obj FetchType StoreType)
    (args : list Obj) (kwargs : kwargs_t Obj) (w : World) (c : Redis)
    (f : callable Obj string) :
  cache_instances w !! _url (_caching new) = Some c →
  Legacy.client old = c →
  Legacy.func old = _func new →
  Legacy.cache_element old = _cache_element new →
  Legacy.get_cache_key old = Some f →
  _get_cache_key new = Some f →
  _expire_in new = Fixed None →
  kwargs_get "value" kwargs = None →
  __call__ new args kwargs w = Legacy.__call__ old args kwargs w.
Proof.
  intros Hreg Hclient Hfunc Helem Hkey Hkey' Httl Hvalue.
  pose proof (get_cache_cached (_caching new) w c Hreg) as Hc.
  unfold __call__, Legacy.__call__, _calculate_cache_key, Legacy._get_cache_key,
    _calculate_expire_in.
  rewrite Hkey, Hkey', Httl, Hvalue, Hclient, Hfunc, Helem. se_unfold.
  destruct (f args kwargs) as [k|err]; [|reflexivity].
  rewrite Hc.
  destruct (on c (get_value (_cache_element new) k) w) as [[[v|]|err] w2] eqn:Hget;
    try reflexivity.
  assert (Hc2 : get_cache (_caching new) w2 = (Ok c, w2)).
  { apply get_cache_cached. replace w2 with (on c (get_value (_cache_element new) k) w).2
      by now rewrite Hget.
    now rewrite on_instances. }
  rewrite Hc2. unfold invoke, Legacy.invoke. se_unfold.
  destruct (log (ECall (__name__ (_func new))) w2) as [[[]|err] wl]; [|reflexivity].
  destruct (body (_func new) args kwargs) as [v|err]; [|reflexivity].
  destruct (on c (set_value (_cache_element new) k v) wl) as [[[]|err] w3]; reflexivity.
Qed.

End OldAndNew.

Lemma legacy_call_agrees_witness :
  let old := Legacy.cache_key legacy_unkeyed test_get_cache_key in
  let w := (get_cache test_caching fresh_world).2 in
  __call__ keyed_wrapper [PStr "123"; PStr "abc"] [] w
  = Legacy.__call__ old [PStr "123"; PStr "abc"] [] w
  ∧ (Legacy.__call__ old [PStr "123"; PStr "abc"] [] w).1 = Ok "string-value".
Proof.
  intros old w. split.
  - apply (legacy_call_agrees keyed_wrapper old [PStr "123"; PStr "abc"] [] w test_client
             test_get_cache_key); reflexivity.
  - vm_compute; reflexivity.
Defined.
